(** * The device-plugin session of the DPU operator daemon

    A shallow embedding of [daemon/device-plugin/deviceplugin.go]: the
    device registry, the allocation handler, the list-and-watch loop, the
    lazily established vendor connection and the startup sequence, with
    the properties the specification states about them.

    Conventions of the embedding.
    - The receiver [nf *nfResources] is threaded explicitly: every method
      is a computation in the monad [M], which carries the record
      [nfResources] together with the list of effects performed so far.
    - A Go [map] is a [gmap]; [range] over a map visits [map_to_list],
      and every statement about such an iteration is independent of the
      order of the visit, as Go leaves that order unspecified.
    - An [error] is its message together with what [os.IsNotExist] says
      about it; [nil] is [None].
    - The two peers, the file system and the gRPC runtime are outside the
      program: the record [Env] gives the outcome of every call made to
      them, and the call is recorded in the trace with its outcome.
    - [for { ... }] in [ListAndWatch] never ends by itself; the embedding
      runs a given number of its iterations and says whether the method
      has returned by then. *)

From stdpp Require Import base strings list gmap fin_maps.

(** ** External packages *)

(** [k8s.io/kubelet/pkg/apis/deviceplugin/v1beta1]: the constants and the
    message fields the plugin reads or writes. *)
Module pluginapi.

Definition Healthy : string := "Healthy".
Definition Unhealthy : string := "Unhealthy".
Definition Version : string := "v1beta1".
Definition DevicePluginPath : string := "/var/lib/kubelet/device-plugins/".

Record Device := mkDevice { ID : string; Health : string }.

Record ListAndWatchResponse := mkListAndWatchResponse
  { Devices : list Device }.

Record ContainerAllocateRequest := mkContainerAllocateRequest
  { DevicesIDs : list string }.

Record AllocateRequest := mkAllocateRequest
  { ContainerRequests : list ContainerAllocateRequest }.

Record ContainerAllocateResponse := mkContainerAllocateResponse
  { Envs : gmap string string }.

Record AllocateResponse := mkAllocateResponse
  { ContainerResponses : list ContainerAllocateResponse }.

Record RegisterRequest := mkRegisterRequest
  { rq_Version : string; Endpoint : string; ResourceName : string }.

Record DevicePluginOptions := mkDevicePluginOptions
  { PreStartRequired : bool }.

(** [PreStartContainerResponse] has no field. *)
Record PreStartContainerResponse := mkPreStartContainerResponse { }.

#[global] Instance Device_eq_dec : EqDecision Device.
Proof. solve_decision. Defined.

End pluginapi.
Import pluginapi.

(** Go's [error] values.  [fmt.Errorf] with the verb [%v] builds a plain
    error from the formatted text, which [os.IsNotExist] never accepts. *)
Record error := mkError { Error : string; IsNotExist : bool }.

Definition Errorf (text : string) : error :=
  {| Error := text; IsNotExist := false |}.

(** [dpu-api/gen]: a device as the vendor service reports it, and the
    client stub built over a connection. *)
Module pb.

Record Device := mkDevice { ID : string }.

End pb.

(** [google.golang.org/grpc]: connections are handles named by their
    target; the dial options are the ones this file passes. *)
Record ClientConn := mkClientConn { target : string }.

Record DeviceServiceClient := NewDeviceServiceClient { cc : ClientConn }.

Record RetryPolicy := mkRetryPolicy
  { MaxAttempts : Z;
    InitialBackoff : Z;          (* seconds *)
    MaxBackoff : Z;              (* seconds *)
    BackoffMultiplier : Z;
    RetryableStatusCodes : list string }.

Record ServiceConfig := mkServiceConfig
  { waitForReady : bool; retryPolicy : RetryPolicy }.

Record DialRequest := mkDialRequest
  { dial_timeout : option Z;     (* seconds; None is context.Background() *)
    dial_target : string;
    WithBlock : bool;
    WithContextDialer : option string;   (* network of the custom dialer *)
    WithDefaultServiceConfig : option ServiceConfig }.

(** The state of a [*grpc.Server]. *)
Record Server := mkServer { serving : bool; stopped : bool }.

Record Listener := mkListener { lis_addr : string }.

(** ** The plugin state *)

Record nfResources := mk_nfResources
  { socketFile : string;
    devices : gmap string pluginapi.Device;
    grpcServer : option Server;
    client : option DeviceServiceClient;
    conn : option ClientConn }.

(** What [nf.log] is given as the value of a key. *)
Inductive logval :=
| LStr (s : string)
| LResp (r : ListAndWatchResponse).

(** The effects of the program, in the order they happen. *)
Inductive event :=
| LogInfo (msg key : string) (val : logval)
| LogError (err : error) (msg : string) (kv : list (string * string))
| OsRemove (path : string) (r : option error)
| Dial (rq : DialRequest) (r : error + ClientConn)
| ConnClose (c : ClientConn)
| RpcGetDevices (c : DeviceServiceClient) (r : error + list pb.Device)
| RpcRegister (c : ClientConn) (rq : RegisterRequest) (r : option error)
| NetListen (path : string) (r : error + Listener)
| GoServe (l : Listener)     (* [go nf.grpcServer.Serve(lis)]: the start only *)
| ServerStop
| StreamSend (resp : ListAndWatchResponse) (r : option error)
| Sleep (seconds : Z).

(** The world around the plugin.  The three constants are declared in
    files of the repository other than [deviceplugin.go]. *)
Record Env := mkEnv
  { DaemonBaseDir : string;
    DeprecatedSockDir : string;
    KubeEndPoint : string;
    filepath_Join : list string → string;
    os_Remove : string → option error;
    grpc_DialContext : DialRequest → error + ClientConn;
    vendor_GetDevices : DeviceServiceClient → error + list pb.Device;
    net_Listen : string → error + Listener;
    kubelet_Register : ClientConn → RegisterRequest → option error }.

(** [pluginapi.DevicePlugin_ListAndWatchServer], the stream a watch call
    is given: the outcome of a push may depend on all that happened
    before it. *)
Record ListAndWatchServer := mkStream
  { Send : list event → ListAndWatchResponse → option error }.

Record State := mkState { nf : nfResources; trace : list event }.

(** ** The monad of methods on [*nfResources] *)

Inductive result (A : Type) :=
| Done (a : A)
| Panic (reason : string).
Arguments Done {A} a.
Arguments Panic {A} reason.

Definition M (A : Type) : Type := State → result A * State.

#[global] Instance M_ret : MRet M := λ A a st, (Done a, st).

#[global] Instance M_bind : MBind M := λ A B f m st,
  match m st with
  | (Done a, st') => f a st'
  | (Panic r, st') => (Panic r, st')
  end.

Definition get_nf : M nfResources := λ st, (Done (nf st), st).

Definition modify_nf (f : nfResources → nfResources) : M unit :=
  λ st, (Done tt, {| nf := f (nf st); trace := trace st |}).

Definition get_trace : M (list event) := λ st, (Done (trace st), st).

Definition emit (e : event) : M unit :=
  λ st, (Done tt, {| nf := nf st; trace := trace st ++ [e] |}).

Definition panic {A} (reason : string) : M A := λ st, (Panic reason, st).

Definition set_devices (d : gmap string pluginapi.Device) (n : nfResources) :=
  {| socketFile := socketFile n; devices := d; grpcServer := grpcServer n;
     client := client n; conn := conn n |}.

Definition set_grpcServer (s : option Server) (n : nfResources) :=
  {| socketFile := socketFile n; devices := devices n; grpcServer := s;
     client := client n; conn := conn n |}.

Definition set_client (c : option DeviceServiceClient) (n : nfResources) :=
  {| socketFile := socketFile n; devices := devices n;
     grpcServer := grpcServer n; client := c; conn := conn n |}.

Definition set_conn (c : option ClientConn) (n : nfResources) :=
  {| socketFile := socketFile n; devices := devices n;
     grpcServer := grpcServer n; client := client n; conn := c |}.

(** ** Constants of the file *)

Definition pluginMountPath : string := "/var/lib/kubelet/device-plugins".
Definition kubeletEndpoint : string := "kubelet.sock".
Definition pluginEndpoint : string := "sriovNet.sock".
Definition resourceName : string := "openshift.io/dpu".

Section Plugin.

Variable E : Env.

Definition VendorPluginSocketPath : string :=
  DaemonBaseDir E +:+ "vendor-plugin/vendor-plugin.sock".

(** *** Allocation handler *)

(** The inner loop of [Allocate] over [container.DevicesIDs]; [devName]
    is the variable of that name, which the loop extends. *)
Fixpoint allocateDevices (ids : list string) (devName : string)
  : M (error + string) :=
  match ids with
  | [] => mret (inr devName)
  | id :: ids' =>
      emit (LogInfo "DeviceID in Allocate:" "id" (LStr id));;
      n ← get_nf;
      match devices n !! id with
      | None =>
          mret (inl (Errorf
            ("invalid allocation request with non-existing device: " +:+ id)))
      | Some dev =>
          if decide (Health dev ≠ Healthy) then
            mret (inl (Errorf
              ("invalid allocation request with unhealthy device: " +:+ id)))
          else allocateDevices ids' ((devName +:+ id) +:+ ",")
      end
  end.

(** The outer loop over [rqt.ContainerRequests].  [devName] is declared
    before this loop in the source, so it is carried from one container
    to the next. *)
Fixpoint allocateContainers (cs : list ContainerAllocateRequest)
    (devName : string) (resp : AllocateResponse)
  : M (error + AllocateResponse) :=
  match cs with
  | [] => mret (inr resp)
  | container :: cs' =>
      r ← allocateDevices (DevicesIDs container) devName;
      match r with
      | inl err => mret (inl err)
      | inr devName' =>
          emit (LogInfo "Device(s) allocated:" "devName" (LStr devName'));;
          let envmap : gmap string string := <["NF-DEV" := devName']> ∅ in
          let containerResp := {| Envs := envmap |} in
          allocateContainers cs' devName'
            {| ContainerResponses :=
                 ContainerResponses resp ++ [containerResp] |}
      end
  end.

Definition Allocate (rqt : AllocateRequest) : M (error + AllocateResponse) :=
  allocateContainers (ContainerRequests rqt) ""
    {| ContainerResponses := [] |}.

(** *** Device registry and inventory streamer *)

(** The records [sendDevices] copies out of the registry. *)
Definition snapshot (n : nfResources) : list pluginapi.Device :=
  (λ kv : string * pluginapi.Device,
     {| ID := ID kv.2; Health := Health kv.2 |}) <$> map_to_list (devices n).

Definition sendDevices (stream : ListAndWatchServer) : M (option error) :=
  n ← get_nf;
  let resp := {| Devices := snapshot n |} in
  emit (LogInfo "SendDevices:" "resp" (LResp resp));;
  tr ← get_trace;
  let r := Send stream tr resp in
  emit (StreamSend resp r);;
  match r with
  | Some err =>
      emit (LogError err "Cannot send devices to ListAndWatch server" []);;
      n ← get_nf;
      match grpcServer n with
      | None => panic "invalid memory address or nil pointer dereference"
      | Some _ =>
          emit ServerStop;;
          modify_nf
            (set_grpcServer (Some {| serving := false; stopped := true |}));;
          mret (Some err)
      end
  | None => mret None
  end.

Definition getDeviceState (DeviceName : string) : string :=
  (* TODO: Discover device health *)
  Healthy.

(** One visit of the loop of [changed]. *)
Definition changed_visit (acc : bool * gmap string pluginapi.Device)
    (kv : string * pluginapi.Device) : bool * gmap string pluginapi.Device :=
  let state := getDeviceState kv.1 in
  if decide (Health kv.2 ≠ state) then
    (true, <[kv.1 := {| ID := ID kv.2; Health := state |}]> acc.2)
  else acc.

Definition changed : M bool :=
  n ← get_nf;
  let r := foldl changed_visit (false, devices n) (map_to_list (devices n)) in
  modify_nf (set_devices r.2);;
  mret r.1.

(** Where [ListAndWatch] stands after some iterations of its loop. *)
Inductive watch :=
| Watching (changed : bool)
| Returned (err : error).

(** [ListAndWatch_from fuel c]: [fuel] iterations of the loop, entered
    with the variable [changed] equal to [c]. *)
Fixpoint ListAndWatch_from (stream : ListAndWatchServer) (fuel : nat)
    (c : bool) : M watch :=
  match fuel with
  | O => mret (Watching c)
  | S fuel' =>
      err ← (if c then sendDevices stream else mret None);
      match err with
      | Some e => mret (Returned e)
      | None =>
          emit (Sleep 5%Z);;
          c' ← changed;
          ListAndWatch_from stream fuel' c'
      end
  end.

Definition ListAndWatch (stream : ListAndWatchServer) (fuel : nat) : M watch :=
  ListAndWatch_from stream fuel true.

(** *** Connection manager *)

(** What [ensureConnected] asks of [grpc.DialContext]. *)
Definition vendorDial : DialRequest :=
  {| dial_timeout := None;
     dial_target := VendorPluginSocketPath;
     WithBlock := false;
     WithContextDialer := Some "unix";
     WithDefaultServiceConfig := None |}.

Definition ensureConnected : M (option error) :=
  n ← get_nf;
  match client n with
  | Some _ => mret None
  | None =>
      let r := grpc_DialContext E vendorDial in
      emit (Dial vendorDial r);;
      match r with
      | inl err =>
          mret (Some (Errorf
            ("failed to connect to vendor plugin: " +:+ Error err)))
      | inr c =>
          modify_nf (set_conn (Some c));;
          modify_nf (set_client (Some (NewDeviceServiceClient c)));;
          mret None
      end
  end.

(** The JSON text of [retryPolicy], field by field. *)
Definition retryPolicy_config : ServiceConfig :=
  {| waitForReady := true;
     retryPolicy := {| MaxAttempts := 40%Z;
                       InitialBackoff := 1%Z;
                       MaxBackoff := 16%Z;
                       BackoffMultiplier := 2%Z;
                       RetryableStatusCodes := ["UNAVAILABLE"] |} |}.

(** What [connectWithRetry] asks of [grpc.DialContext]. *)
Definition retryDial (endpoint : string) : DialRequest :=
  {| dial_timeout := Some 5%Z;
     dial_target := endpoint;
     WithBlock := true;
     WithContextDialer := None;
     WithDefaultServiceConfig := Some retryPolicy_config |}.

Definition connectWithRetry (endpoint : string) : M (error + ClientConn) :=
  let rq := retryDial endpoint in
  let r := grpc_DialContext E rq in
  emit (Dial rq r);;
  match r with
  | inl err =>
      emit (LogError err "Failed to establish connection with retry"
              [("endpoint", endpoint)]);;
      mret (inl err)
  | inr c => mret (inr c)
  end.

(** *** Discovery *)

(** The loop of [GetDevices] over the devices the vendor returned. *)
Fixpoint storeDevices (ds : list pb.Device) : M unit :=
  match ds with
  | [] => mret tt
  | device :: ds' =>
      modify_nf (λ n, set_devices
        (<[pb.ID device := {| ID := pb.ID device; Health := Healthy |}]>
           (devices n)) n);;
      emit (LogInfo "Found device" "device.ID" (LStr (pb.ID device)));;
      storeDevices ds'
  end.

Definition GetDevices : M (option error) :=
  err ← ensureConnected;
  match err with
  | Some e =>
      mret (Some (Errorf
        ("failed to ensure connection to plugin: " +:+ Error e)))
  | None =>
      n ← get_nf;
      match client n with
      | None => panic "invalid memory address or nil pointer dereference"
      | Some c =>
          let r := vendor_GetDevices E c in
          emit (RpcGetDevices c r);;
          match r with
          | inl e =>
              mret (Some (Errorf
                ("failed to handle GetDevices request: " +:+ Error e)))
          | inr Devices => storeDevices Devices;; mret None
          end
      end
  end.

(** *** Session lifecycle *)

(** [filepath.Join(pluginapi.DevicePluginPath, nf.socketFile)] *)
Definition socketPath (n : nfResources) : string :=
  filepath_Join E [DevicePluginPath; socketFile n].

Definition cleanup : M (option error) :=
  n ← get_nf;
  let pluginEndpoint := socketPath n in
  let r := os_Remove E pluginEndpoint in
  emit (OsRemove pluginEndpoint r);;
  match r with
  | Some err => if negb (IsNotExist err) then mret (Some err) else mret None
  | None => mret None
  end.

(** What [RegisterDevicePlugin] asks of [grpc.Dial] to reach the
    orchestrator. *)
Definition kubeletDial : DialRequest :=
  {| dial_timeout := None;
     dial_target :=
       filepath_Join E ["unix:"; DeprecatedSockDir E; KubeEndPoint E];
     WithBlock := false;
     WithContextDialer := None;
     WithDefaultServiceConfig := None |}.

Definition registerRequest (n : nfResources) : RegisterRequest :=
  {| rq_Version := Version;
     Endpoint := socketFile n;
     ResourceName := resourceName |}.

Definition RegisterDevicePlugin : M (option error) :=
  n ← get_nf;
  let pluginEndpoint := socketPath n in
  emit (LogInfo "Starting Device Plugin server at:" "pluginEndpoint"
          (LStr pluginEndpoint));;
  let l := net_Listen E pluginEndpoint in
  emit (NetListen pluginEndpoint l);;
  match l with
  | inl err =>
      mret (Some (Errorf ("resource " +:+ resourceName +:+
        " failed to listen to Device Plugin server: " +:+ Error err)))
  | inr lis =>
      modify_nf (set_grpcServer (Some {| serving := false; stopped := false |}));;
      let r := grpc_DialContext E kubeletDial in
      emit (Dial kubeletDial r);;
      match r with
      | inl err =>
          mret (Some (Errorf ("resource " +:+ resourceName +:+
            " unable connect to Kubelet: " +:+ Error err)))
      | inr kubelet =>
          (* the body after [defer conn.Close()] *)
          res ← (emit (GoServe lis);;
                 modify_nf (set_grpcServer
                   (Some {| serving := true; stopped := false |}));;
                 t ← connectWithRetry ("unix:" +:+ pluginEndpoint);
                 match t with
                 | inl err =>
                     mret (Some (Errorf ("resource " +:+ resourceName +:+
                       " unable to establish test connection with gRPC server: "
                       +:+ Error err)))
                 | inr test =>
                     emit (LogInfo "Device plugin endpoint started serving:"
                             "resourceName" (LStr resourceName));;
                     emit (ConnClose test);;
                     let request := registerRequest n in
                     let rr := kubelet_Register E kubelet request in
                     emit (RpcRegister kubelet request rr);;
                     match rr with
                     | Some err =>
                         mret (Some (Errorf ("unable to register resource "
                           +:+ resourceName +:+ " with Kubelet: "
                           +:+ Error err)))
                     | None =>
                         emit (LogInfo "Device plugin registered with Kubelet"
                                 "resourceName" (LStr resourceName));;
                         mret None
                     end
                 end);
          emit (ConnClose kubelet);;
          mret res
      end
  end.

Definition Start : M (option error) :=
  err ← cleanup;
  match err with
  | Some e => mret (Some (Errorf ("failed to cleanup: " +:+ Error e)))
  | None =>
      err ← GetDevices;
      match err with
      | Some e => mret (Some (Errorf ("failed to get devices: " +:+ Error e)))
      | None =>
          err ← RegisterDevicePlugin;
          match err with
          | Some e =>
              mret (Some (Errorf
                ("failed to register the device plugin: " +:+ Error e)))
          | None => mret None
          end
      end
  end.

(** *** The two remaining operations of the plugin protocol *)

Definition PreStartContainer : M (error + PreStartContainerResponse) :=
  mret (inr mkPreStartContainerResponse).

Definition GetDevicePluginOptions : M (error + DevicePluginOptions) :=
  mret (inr {| PreStartRequired := false |}).

End Plugin.

(** The methods are unfolded where a proof asks for it, not in passing. *)
Arguments sendDevices : simpl never.
Arguments changed : simpl never.
Arguments ensureConnected : simpl never.
Arguments connectWithRetry : simpl never.
Arguments GetDevices : simpl never.
Arguments cleanup : simpl never.
Arguments RegisterDevicePlugin : simpl never.
Arguments Start : simpl never.

Definition NewGrpcPlugin : nfResources :=
  {| socketFile := pluginEndpoint;
     devices := ∅;
     grpcServer := None;
     client := None;
     conn := None |}.

(** The state of a fresh process. *)
Definition boot : State := {| nf := NewGrpcPlugin; trace := [] |}.

(** ** Vocabulary of the statements *)

(** An identity the allocation handler accepts: present in the registry
    with the status [Healthy]. *)
Definition healthy_in (devs : gmap string pluginapi.Device) (id : string)
  : Prop :=
  Health <$> devs !! id = Some Healthy.

#[global] Instance healthy_in_dec devs id : Decision (healthy_in devs id).
Proof. unfold healthy_in. apply _. Defined.

(** The identities of a group, each followed by a comma. *)
Definition join_ids (ids : list string) : string :=
  foldr (λ id s, id +:+ "," +:+ s) "" ids.

(** All the identities of a request, in the order [Allocate] reads them. *)
Definition all_ids (rqt : AllocateRequest) : list string :=
  concat (DevicesIDs <$> ContainerRequests rqt).

(** The request naming the given groups. *)
Definition request (groups : list (list string)) : AllocateRequest :=
  {| ContainerRequests := mkContainerAllocateRequest <$> groups |}.

(** The value [devName] has after each container of a run of [Allocate]
    in which every identity is accepted. *)
Fixpoint devNames (devName : string) (cs : list ContainerAllocateRequest)
  : list string :=
  match cs with
  | [] => []
  | c :: cs' =>
      let d := devName +:+ join_ids (DevicesIDs c) in d :: devNames d cs'
  end.

(** The response a group is given when [devName] holds the given text. *)
Definition env_of (devName : string) : ContainerAllocateResponse :=
  {| Envs := {[ "NF-DEV" := devName ]} |}.

Definition log_id (id : string) : event :=
  LogInfo "DeviceID in Allocate:" "id" (LStr id).

(** The registry of the specification's scenario. *)
Definition registry_AB : gmap string pluginapi.Device :=
  <["A" := {| ID := "A"; Health := Healthy |}]>
    (<["B" := {| ID := "B"; Health := Unhealthy |}]> ∅).

Definition state_AB : State :=
  {| nf := set_devices registry_AB NewGrpcPlugin; trace := [] |}.

(** *** The registry *)

(** A record with its health set to what [getDeviceState] reports. *)
Definition heal (d : pluginapi.Device) : pluginapi.Device :=
  {| ID := ID d; Health := getDeviceState (ID d) |}.

(** The record discovery files for a device of the vendor. *)
Definition discovered (d : pb.Device) : pluginapi.Device :=
  {| ID := pb.ID d; Health := Healthy |}.

(** The registry after discovery has filed the given devices. *)
Definition upsert_all (ds : list pb.Device)
    (devs : gmap string pluginapi.Device) : gmap string pluginapi.Device :=
  foldl (λ m d, <[pb.ID d := discovered d]> m) devs ds.

(** Every record is filed under its own identity. *)
Definition registry_wf (devs : gmap string pluginapi.Device) : Prop :=
  map_Forall (λ k d, ID d = k) devs.

(** Every record has the status Healthy. *)
Definition all_healthy (devs : gmap string pluginapi.Device) : Prop :=
  map_Forall (λ _ d, Health d = Healthy) devs.

(** A computation that maintains a property of the registry. *)
Definition keeps {A} (P : gmap string pluginapi.Device → Prop) (m : M A)
  : Prop :=
  ∀ st, P (devices (nf st)) → P (devices (nf (m st).2)).

(** The states of a process: a fresh plugin, and whatever the methods of
    the plugin make of it, in any order and in any environment. *)
Inductive reachable : State → Prop :=
| reach_boot : reachable boot
| reach_GetDevices E st : reachable st → reachable (GetDevices E st).2
| reach_changed st : reachable st → reachable (changed st).2
| reach_Allocate rqt st : reachable st → reachable (Allocate rqt st).2
| reach_ListAndWatch stream fuel st :
    reachable st → reachable (ListAndWatch stream fuel st).2
| reach_Start E st : reachable st → reachable (Start E st).2.

(** *** The watch loop *)

(** The response [sendDevices] builds in a state, and its log line. *)
Definition push_of (st : State) : ListAndWatchResponse :=
  {| Devices := snapshot (nf st) |}.

Definition push_log (st : State) : event :=
  LogInfo "SendDevices:" "resp" (LResp (push_of st)).

Definition send_failed (e : error) : event :=
  LogError e "Cannot send devices to ListAndWatch server" [].

(** A server after [Stop]. *)
Definition server_stopped : Server := {| serving := false; stopped := true |}.

(** *** Sample environments *)

Definition no_such_file (path : string) : error :=
  {| Error := "remove " +:+ path +:+ ": no such file or directory";
     IsNotExist := true |}.

(** An environment in which every peer answers, no stale socket is left
    and the vendor reports the given devices.  Its [filepath_Join] only
    concatenates, which is what [filepath.Join] yields on the paths used
    here. *)
Definition env_up (ds : list pb.Device) : Env :=
  {| DaemonBaseDir := "/var/run/dpu-daemon/";
     DeprecatedSockDir := "/var/lib/kubelet/device-plugins/";
     KubeEndPoint := "kubelet.sock";
     filepath_Join := foldr String.append "";
     os_Remove := λ path, Some (no_such_file path);
     grpc_DialContext := λ rq, inr {| target := dial_target rq |};
     vendor_GetDevices := λ _, inr ds;
     net_Listen := λ path, inr {| lis_addr := path |};
     kubelet_Register := λ _ _, None |}.

(** A stream that accepts every push, and one that refuses every push. *)
Definition stream_open : ListAndWatchServer := {| Send := λ _ _, None |}.

Definition stream_broken : ListAndWatchServer :=
  {| Send := λ _ _, Some {| Error := "transport is closing";
                            IsNotExist := false |} |}.

(** *** Further vocabulary *)

(** The plugin state after a health check. *)
Definition healed (n : nfResources) : nfResources :=
  set_devices (heal <$> devices n) n.

(** A computation that maintains a property of the plugin state. *)
Definition holds {A} (P : nfResources → Prop) (m : M A) : Prop :=
  ∀ st, P (nf st) → P (nf (m st).2).


(** The stored client is the stub over the stored connection. *)
Definition linked (n : nfResources) : Prop :=
  client n = NewDeviceServiceClient <$> conn n.

(** The effects that are lines of the log. *)
Definition is_log (e : event) : Prop :=
  match e with
  | LogInfo _ _ _ => True
  | _ => False
  end.

(** A server as [grpc.NewServer] returns it, and one that serves. *)
Definition server_created : Server := {| serving := false; stopped := false |}.

Definition server_serving : Server := {| serving := true; stopped := false |}.

(** The lines [GetDevices] logs for the devices it files. *)
Definition found_log (ds : list pb.Device) : list event :=
  (λ d, LogInfo "Found device" "device.ID" (LStr (pb.ID d))) <$> ds.

(** *** Sample environments with a peer that fails *)

Inductive peer := Vendor | Kubelet | SelfTest.

#[global] Instance peer_eq_dec : EqDecision peer.
Proof. solve_decision. Defined.

(** The peer a dial request is for, by the options that tell the three
    dials of this file apart. *)
Definition peer_of (rq : DialRequest) : peer :=
  if WithBlock rq then SelfTest
  else match WithContextDialer rq with
       | Some _ => Vendor
       | None => Kubelet
       end.

Definition refused : error :=
  {| Error := "connection refused"; IsNotExist := false |}.

(** As [env_up], with the dials to the given peers refused, and the
    listener, the enumeration call or the registration failing on
    request. *)
Definition env_faulty (down : peer → bool)
    (listen_fails rpc_fails register_fails : bool) (ds : list pb.Device)
  : Env :=
  {| DaemonBaseDir := "/var/run/dpu-daemon/";
     DeprecatedSockDir := "/var/lib/kubelet/device-plugins/";
     KubeEndPoint := "kubelet.sock";
     filepath_Join := foldr String.append "";
     os_Remove := λ path, Some (no_such_file path);
     grpc_DialContext := λ rq,
       if down (peer_of rq) then inl refused
       else inr {| target := dial_target rq |};
     vendor_GetDevices := λ _, if rpc_fails then inl refused else inr ds;
     net_Listen := λ path,
       if listen_fails then inl refused else inr {| lis_addr := path |};
     kubelet_Register := λ _ _, if register_fails then Some refused else None |}.

(** As [env_up] without devices, but with a socket file that cannot be
    removed. *)
Definition denied : error :=
  {| Error := "permission denied"; IsNotExist := false |}.

Definition env_locked : Env :=
  {| DaemonBaseDir := "/var/run/dpu-daemon/";
     DeprecatedSockDir := "/var/lib/kubelet/device-plugins/";
     KubeEndPoint := "kubelet.sock";
     filepath_Join := foldr String.append "";
     os_Remove := λ _, Some denied;
     grpc_DialContext := λ rq, inr {| target := dial_target rq |};
     vendor_GetDevices := λ _, inr [];
     net_Listen := λ path, inr {| lis_addr := path |};
     kubelet_Register := λ _ _, None |}.

(** A plugin whose server serves, before any discovery. *)
Definition state_served : State :=
  {| nf := set_grpcServer (Some server_serving) NewGrpcPlugin; trace := [] |}.

(** ** Strings *)

Lemma string_app_assoc (a b c : string) : (a +:+ b) +:+ c = a +:+ b +:+ c.
Proof.
  induction a as [|x a IH]; [done|].
  change (String x ((a +:+ b) +:+ c) = String x (a +:+ b +:+ c)).
  by f_equal.
Qed.

Lemma string_app_nil_r (a : string) : a +:+ "" = a.
Proof.
  induction a as [|x a IH]; [done|].
  change (String x (a +:+ "") = String x a). by f_equal.
Qed.

(** ** Running the monad *)

Ltac munfold :=
  unfold mbind, M_bind, mret, M_ret, emit, get_nf, get_trace, modify_nf,
    panic in *.

Ltac msimpl := munfold; simpl in *.

(** ** Lists *)

(** In a list with an element outside a decidable property, some such
    element comes first. *)
Lemma first_offender_split {A} (P : A → Prop) `{∀ x, Decision (P x)}
    (l : list A) :
  ¬ Forall P l →
  ∃ good bad rest, l = good ++ bad :: rest ∧ Forall P good ∧ ¬ P bad.
Proof.
  induction l as [|x l IH]; intros Hnot.
  - destruct Hnot. constructor.
  - destruct (decide (P x)) as [Hx|Hx].
    + destruct IH as (good & bad & rest & -> & Hgood & Hbad).
      { intros Hl. apply Hnot. by constructor. }
      exists (x :: good), bad, rest. split_and!; [done| by constructor |done].
    + exists [], x, l. split_and!; [done| constructor |done].
Qed.

(** ** The allocation handler *)

Section AllocateFacts.

Implicit Types (ids good rest : list string) (st : State).

Lemma healthy_in_lookup devs id :
  healthy_in devs id ↔ ∃ dev, devs !! id = Some dev ∧ Health dev = Healthy.
Proof.
  unfold healthy_in. destruct (devs !! id) as [dev|]; simpl; split.
  - intros [= H]. eauto.
  - intros (d & [= <-] & ->). done.
  - done.
  - intros (d & ? & _). done.
Qed.

(** A group of accepted identities extends [devName] by the group. *)
Lemma allocateDevices_healthy ids devName st :
  Forall (healthy_in (devices (nf st))) ids →
  allocateDevices ids devName st =
    (Done (inr (devName +:+ join_ids ids)),
     {| nf := nf st; trace := trace st ++ (log_id <$> ids) |}).
Proof.
  revert devName st. induction ids as [|id ids IH]; intros devName st Hall.
  - msimpl. rewrite string_app_nil_r, app_nil_r. by destruct st.
  - apply Forall_cons in Hall as [Hid Hall].
    apply healthy_in_lookup in Hid as (dev & Hdev & Hh).
    simpl. msimpl. rewrite Hdev.
    destruct (decide (Health dev ≠ Healthy)) as [Hne|_]; [done|].
    rewrite IH by done. simpl.
    rewrite <- app_assoc. simpl.
    by rewrite !string_app_assoc.
Qed.

(** The first identity that is not accepted ends the loop with its
    error. *)
Lemma allocateDevices_offender good bad rest devName st :
  Forall (healthy_in (devices (nf st))) good →
  ¬ healthy_in (devices (nf st)) bad →
  allocateDevices (good ++ bad :: rest) devName st =
    (Done (inl (Errorf
       (match devices (nf st) !! bad with
        | None => "invalid allocation request with non-existing device: "
        | Some _ => "invalid allocation request with unhealthy device: "
        end +:+ bad))),
     {| nf := nf st; trace := trace st ++ (log_id <$> good ++ [bad]) |}).
Proof.
  revert devName st. induction good as [|id good IH]; intros devName st Hall Hbad.
  - simpl. msimpl. unfold healthy_in in Hbad.
    destruct (devices (nf st) !! bad) as [dev|] eqn:Hdev; simpl in *; [|done].
    destruct (decide (Health dev ≠ Healthy)) as [_|Hh]; [done|].
    destruct Hbad. f_equal. by apply dec_stable.
  - apply Forall_cons in Hall as [Hid Hall].
    apply healthy_in_lookup in Hid as (dev & Hdev & Hh).
    simpl. msimpl. rewrite Hdev.
    destruct (decide (Health dev ≠ Healthy)) as [Hne|_]; [done|].
    rewrite IH by done. simpl. by rewrite <- app_assoc.
Qed.

(** [allocateDevices] leaves the plugin state alone, and only ever adds
    to the trace. *)
Lemma allocateDevices_frame ids devName st :
  nf (allocateDevices ids devName st).2 = nf st.
Proof.
  revert devName st. induction ids as [|id ids IH]; intros devName st.
  - done.
  - simpl. msimpl. destruct (devices (nf st) !! id) as [dev|]; [|done].
    destruct (decide (Health dev ≠ Healthy)); [done|].
    by rewrite IH.
Qed.

Lemma allocateContainers_frame cs devName resp st :
  nf (allocateContainers cs devName resp st).2 = nf st.
Proof.
  revert devName resp st. induction cs as [|c cs IH]; intros devName resp st.
  - done.
  - simpl. unfold mbind at 1, M_bind at 1.
    pose proof (allocateDevices_frame (DevicesIDs c) devName st) as Hf.
    destruct (allocateDevices (DevicesIDs c) devName st) as [[[e|d]|r] st1];
      simpl in *; [done| |done].
    msimpl. by rewrite IH.
Qed.

(** The answer of [allocateDevices] is a function of the registry. *)
Lemma allocateDevices_answer ids devName st1 st2 :
  devices (nf st1) = devices (nf st2) →
  (allocateDevices ids devName st1).1 = (allocateDevices ids devName st2).1.
Proof.
  revert devName st1 st2.
  induction ids as [|id ids IH]; intros devName st1 st2 Heq.
  - done.
  - simpl. msimpl. rewrite Heq.
    destruct (devices (nf st2) !! id) as [dev|]; [|done].
    destruct (decide (Health dev ≠ Healthy)); [done|].
    by apply IH.
Qed.

Lemma allocateContainers_answer cs devName resp st1 st2 :
  devices (nf st1) = devices (nf st2) →
  (allocateContainers cs devName resp st1).1 =
  (allocateContainers cs devName resp st2).1.
Proof.
  revert devName resp st1 st2.
  induction cs as [|c cs IH]; intros devName resp st1 st2 Heq.
  - done.
  - simpl. unfold mbind at 1 3, M_bind at 1 3.
    pose proof (allocateDevices_answer (DevicesIDs c) devName st1 st2 Heq) as Ha.
    pose proof (allocateDevices_frame (DevicesIDs c) devName st1) as Hf1.
    pose proof (allocateDevices_frame (DevicesIDs c) devName st2) as Hf2.
    destruct (allocateDevices (DevicesIDs c) devName st1) as [r1 s1].
    destruct (allocateDevices (DevicesIDs c) devName st2) as [r2 s2].
    simpl in *. subst r2. destruct r1 as [[e|d]|r]; [done| |done].
    msimpl. apply IH. simpl. by rewrite Hf1, Hf2.
Qed.

End AllocateFacts.

Section AllocateRequests.

Implicit Types (ids good rest : list string) (st : State).

(** A request of accepted identities is answered group by group. *)
Lemma allocateContainers_healthy cs devName resp st :
  Forall (healthy_in (devices (nf st))) (concat (DevicesIDs <$> cs)) →
  (allocateContainers cs devName resp st).1 =
    Done (inr {| ContainerResponses :=
                   ContainerResponses resp ++ (env_of <$> devNames devName cs) |}).
Proof.
  revert devName resp st.
  induction cs as [|c cs IH]; intros devName resp st Hall.
  - simpl. rewrite app_nil_r. by destruct resp.
  - simpl in Hall. apply Forall_app in Hall as [Hc Hcs].
    simpl. unfold mbind at 1, M_bind at 1.
    rewrite (allocateDevices_healthy _ _ _ Hc). msimpl.
    rewrite IH by done. simpl.
    rewrite insert_empty, <- app_assoc. done.
Qed.

(** The first identity of a request that is not accepted decides the
    error, whatever group it belongs to. *)
Lemma allocateContainers_offender cs good bad rest devName resp st :
  concat (DevicesIDs <$> cs) = good ++ bad :: rest →
  Forall (healthy_in (devices (nf st))) good →
  ¬ healthy_in (devices (nf st)) bad →
  (allocateContainers cs devName resp st).1 =
    Done (inl (Errorf
      (match devices (nf st) !! bad with
       | None => "invalid allocation request with non-existing device: "
       | Some _ => "invalid allocation request with unhealthy device: "
       end +:+ bad))).
Proof.
  revert good devName resp st.
  induction cs as [|c cs IH]; intros good devName resp st Hsplit Hgood Hbad.
  - simpl in Hsplit. by destruct good.
  - simpl in Hsplit.
    assert ((∃ k, DevicesIDs c = good ++ bad :: k) ∨
            (∃ k, good = DevicesIDs c ++ k ∧
                  concat (DevicesIDs <$> cs) = k ++ bad :: rest))
      as [[k Hk]|(k & Hk & Hcs)].
    { apply app_eq_inv in Hsplit as [(k & Hk & Hr)|(k & Hk & Hr)].
      - destruct k as [|x k].
        + right. exists []. rewrite app_nil_r in Hk. simpl in Hr.
          by rewrite app_nil_r.
        + left. exists k. simplify_eq/=. done.
      - right. by exists k. }
    + simpl. unfold mbind at 1, M_bind at 1.
      rewrite Hk, (allocateDevices_offender _ _ _ _ _ Hgood Hbad). done.
    + subst good. apply Forall_app in Hgood as [Hc Hk].
      simpl. unfold mbind at 1, M_bind at 1.
      rewrite (allocateDevices_healthy _ _ _ Hc). msimpl.
      by rewrite (IH k).
Qed.

End AllocateRequests.

Lemma devNames_length devName cs : length (devNames devName cs) = length cs.
Proof.
  revert devName. induction cs as [|c cs IH]; intros devName; simpl; [done|].
  by rewrite IH.
Qed.

(** C1 (as amended).  When every identity of a request, in all its groups,
    is present in the registry with the status Healthy, [Allocate]
    succeeds and answers with one response per group, each holding an
    environment mapping with the single key "NF-DEV"; the value given to
    the first group is its identities in request order, each followed by
    a comma. *)
Theorem Allocate_healthy_request (rqt : AllocateRequest) (st : State) :
  Forall (healthy_in (devices (nf st))) (all_ids rqt) →
  ∃ resp,
    (Allocate rqt st).1 = Done (inr resp) ∧
    length (ContainerResponses resp) = length (ContainerRequests rqt) ∧
    (∀ r, r ∈ ContainerResponses resp → ∃ v, Envs r = {[ "NF-DEV" := v ]}) ∧
    (∀ c, head (ContainerRequests rqt) = Some c →
          head (ContainerResponses resp) =
            Some {| Envs := {[ "NF-DEV" := join_ids (DevicesIDs c) ]} |}).
Proof.
  intros Hall. unfold Allocate.
  rewrite (allocateContainers_healthy _ _ _ _ Hall). simpl.
  eexists. split; [done|]. simpl. split_and!.
  - by rewrite length_fmap, devNames_length.
  - intros r (d & -> & _)%list_elem_of_fmap. by exists d.
  - intros c Hc. destruct (ContainerRequests rqt) as [|c' cs]; simplify_eq/=.
    done.
Qed.

Lemma Allocate_healthy_request_witness :
  ∃ resp,
    (Allocate (request [["A"]]) state_AB).1 = Done (inr resp) ∧
    length (ContainerResponses resp) = 1 ∧
    (∀ r, r ∈ ContainerResponses resp → ∃ v, Envs r = {[ "NF-DEV" := v ]}) ∧
    (∀ c, Some (mkContainerAllocateRequest ["A"]) = Some c →
          head (ContainerResponses resp) =
            Some {| Envs := {[ "NF-DEV" := join_ids (DevicesIDs c) ]} |}).
Proof.
  apply (Allocate_healthy_request (request [["A"]]) state_AB).
  repeat constructor.
Defined.

(** C1, as the specification words it, fails on the code: the key of the
    environment mapping is "NF-DEV", not "DEV", and the value given to a
    later group also carries the identities of the groups before it. *)
Lemma Allocate_env_counterexample :
  (Allocate (request [["A"]]) state_AB).1 =
    Done (inr {| ContainerResponses :=
                   [ {| Envs := {[ "NF-DEV" := "A," ]} |} ] |}) ∧
  ({[ "NF-DEV" := "A," ]} : gmap string string) !! "DEV" = None ∧
  (Allocate (request [["A"]; ["A"]]) state_AB).1 =
    Done (inr {| ContainerResponses :=
                   [ {| Envs := {[ "NF-DEV" := "A," ]} |};
                     {| Envs := {[ "NF-DEV" := "A,A," ]} |} ] |}).
Proof. split_and!; by vm_compute. Qed.

(** C2 (as amended).  When some identity of a request is absent from the
    registry or present with a status other than Healthy, [Allocate] fails
    the whole request and returns no response; the error is the one of the
    first such identity in request order: "non-existing device" when it is
    absent, "unhealthy device" when it is present. *)
Theorem Allocate_rejects (rqt : AllocateRequest) (st : State) :
  ¬ Forall (healthy_in (devices (nf st))) (all_ids rqt) →
  ∃ good bad rest,
    all_ids rqt = good ++ bad :: rest ∧
    Forall (healthy_in (devices (nf st))) good ∧
    ¬ healthy_in (devices (nf st)) bad ∧
    (Allocate rqt st).1 =
      Done (inl (Errorf
        (match devices (nf st) !! bad with
         | None => "invalid allocation request with non-existing device: "
         | Some _ => "invalid allocation request with unhealthy device: "
         end +:+ bad))).
Proof.
  intros (good & bad & rest & Hsplit & Hgood & Hbad)%first_offender_split;
    [|apply _].
  exists good, bad, rest. split_and!; [done..|].
  unfold Allocate. by apply (allocateContainers_offender _ good bad rest).
Qed.

Lemma Allocate_rejects_witness :
  ∃ good bad rest,
    all_ids (request [["A"; "C"]]) = good ++ bad :: rest ∧
    Forall (healthy_in (devices (nf state_AB))) good ∧
    ¬ healthy_in (devices (nf state_AB)) bad ∧
    (Allocate (request [["A"; "C"]]) state_AB).1 =
      Done (inl (Errorf
        (match devices (nf state_AB) !! bad with
         | None => "invalid allocation request with non-existing device: "
         | Some _ => "invalid allocation request with unhealthy device: "
         end +:+ bad))).
Proof.
  apply (Allocate_rejects (request [["A"; "C"]]) state_AB).
  intros H. apply Forall_cons in H as [_ H]. apply Forall_cons in H as [H _].
  vm_compute in H. discriminate H.
Defined.

(** C2, as the specification words it, fails on the code: "C" is absent
    from the registry and requested, yet the request fails with the error
    of the unhealthy "B" that is read first; and of two absent identities
    only the first is named. *)
Lemma Allocate_unknown_shadowed :
  "C" ∈ all_ids (request [["B"; "C"]]) ∧
  devices (nf state_AB) !! "C" = None ∧
  (Allocate (request [["B"; "C"]]) state_AB).1 =
    Done (inl (Errorf "invalid allocation request with unhealthy device: B")) ∧
  "D" ∈ all_ids (request [["C"]; ["D"]]) ∧
  devices (nf boot) !! "D" = None ∧
  (Allocate (request [["C"]; ["D"]]) boot).1 =
    Done (inl (Errorf "invalid allocation request with non-existing device: C")).
Proof.
  split_and!; try by vm_compute.
  - apply list_elem_of_In. simpl. auto.
  - apply list_elem_of_In. simpl. auto.
Qed.

(** C8.  [Allocate] has no effect on the plugin state, so none on the
    device registry, whether it succeeds or fails; asked again it gives
    the same answer, and so it does in any state with the same registry. *)
Theorem Allocate_frame (rqt : AllocateRequest) (st : State) :
  nf (Allocate rqt st).2 = nf st ∧
  devices (nf (Allocate rqt st).2) = devices (nf st) ∧
  (Allocate rqt (Allocate rqt st).2).1 = (Allocate rqt st).1 ∧
  (∀ st', devices (nf st') = devices (nf st) →
          (Allocate rqt st').1 = (Allocate rqt st).1).
Proof.
  unfold Allocate.
  pose proof (allocateContainers_frame (ContainerRequests rqt) ""
                {| ContainerResponses := [] |} st) as Hf.
  split_and!.
  - done.
  - by rewrite Hf.
  - apply allocateContainers_answer. by rewrite Hf.
  - intros st' Heq. by apply allocateContainers_answer.
Qed.

Lemma Allocate_frame_witness :
  (Allocate (request [["B"]])
     {| nf := nf state_AB; trace := [Sleep 5] |}).1 =
  (Allocate (request [["B"]]) state_AB).1.
Proof.
  apply (Allocate_frame (request [["B"]]) state_AB). reflexivity.
Defined.

(** ** The device registry *)

Section RegistryFacts.

Implicit Types (devs m : gmap string pluginapi.Device) (st : State).

Lemma Device_eta (d : pluginapi.Device) :
  {| ID := ID d; Health := Health d |} = d.
Proof. by destruct d. Qed.

Lemma set_devices_id (n : nfResources) : set_devices (devices n) n = n.
Proof. by destruct n. Qed.

Lemma heal_healthy (d : pluginapi.Device) : Health d = Healthy → heal d = d.
Proof. intros H. unfold heal, getDeviceState. rewrite <- H. apply Device_eta. Qed.

(** *** [snapshot] *)

Lemma elem_of_snapshot (n : nfResources) (d : pluginapi.Device) :
  d ∈ snapshot n ↔ ∃ k, devices n !! k = Some d.
Proof.
  unfold snapshot. rewrite list_elem_of_fmap. split.
  - intros ([k d'] & -> & Hin%elem_of_map_to_list). simpl.
    rewrite Device_eta. eauto.
  - intros [k Hk]. exists (k, d). simpl. rewrite Device_eta.
    split; [done|]. by apply elem_of_map_to_list.
Qed.

Lemma snapshot_IDs (n : nfResources) :
  registry_wf (devices n) → ID <$> snapshot n = (map_to_list (devices n)).*1.
Proof.
  intros Hwf. unfold snapshot. rewrite <- list_fmap_compose.
  apply Forall_fmap_ext, Forall_forall.
  intros [k d] Hin%elem_of_map_to_list. simpl. by apply Hwf in Hin.
Qed.

(** In a well-formed registry no two records of the snapshot carry the
    same identity. *)
Lemma snapshot_NoDup (n : nfResources) :
  registry_wf (devices n) → NoDup (ID <$> snapshot n).
Proof.
  intros Hwf. rewrite snapshot_IDs by done. apply NoDup_fst_map_to_list.
Qed.

(** *** Discovery *)

Lemma upsert_all_lookup (ds : list pb.Device) devs (id : string) :
  upsert_all ds devs !! id =
    if decide (id ∈ pb.ID <$> ds)
    then Some {| ID := id; Health := Healthy |}
    else devs !! id.
Proof.
  unfold upsert_all. revert devs.
  induction ds as [|d ds IH]; intros devs.
  - destruct (decide _) as [Hin|_]; [by apply elem_of_nil in Hin | done].
  - change (foldl _ devs (d :: ds)) with
      (foldl (λ m d, <[pb.ID d := discovered d]> m)
             (<[pb.ID d := discovered d]> devs) ds).
    rewrite IH, fmap_cons.
    destruct (decide (id ∈ pb.ID <$> ds)) as [Hin|Hin].
    + rewrite decide_True by (by right). done.
    + destruct (decide (id = pb.ID d)) as [->|Hne].
      * rewrite decide_True by left. by rewrite lookup_insert_eq.
      * rewrite decide_False by (by intros [?|?]%elem_of_cons).
        by rewrite lookup_insert_ne.
Qed.

Lemma upsert_all_wf (ds : list pb.Device) devs :
  registry_wf devs → registry_wf (upsert_all ds devs).
Proof.
  intros Hwf k d. rewrite upsert_all_lookup.
  case_decide; [by intros [= <-] | apply Hwf].
Qed.

Lemma upsert_all_healthy (ds : list pb.Device) devs :
  all_healthy devs → all_healthy (upsert_all ds devs).
Proof.
  intros Hh k d. rewrite upsert_all_lookup.
  case_decide; [by intros [= <-] | apply Hh].
Qed.

Lemma storeDevices_run (ds : list pb.Device) st :
  storeDevices ds st =
    (Done tt,
     {| nf := set_devices (upsert_all ds (devices (nf st))) (nf st);
        trace := trace st ++
          ((λ d, LogInfo "Found device" "device.ID" (LStr (pb.ID d))) <$> ds) |}).
Proof.
  revert st. induction ds as [|d ds IH]; intros st.
  - simpl. msimpl. rewrite set_devices_id, app_nil_r. by destruct st.
  - simpl. msimpl. rewrite IH. simpl. by rewrite <- app_assoc.
Qed.

End RegistryFacts.

(** ** The health check *)

Section ChangedFacts.

Implicit Types (m : gmap string pluginapi.Device) (st : State)
  (l : list (string * pluginapi.Device)).

Lemma changed_fold_quiet l acc :
  Forall (λ kv, Health kv.2 = Healthy) l → foldl changed_visit acc l = acc.
Proof.
  revert acc. induction l as [|kv l IH]; intros acc Hall; [done|].
  apply Forall_cons in Hall as [Hkv Hall]. simpl.
  unfold changed_visit at 2, getDeviceState.
  rewrite decide_False by (by intros ?). by apply IH.
Qed.

Lemma changed_fold_sticky l m : (foldl changed_visit (true, m) l).1 = true.
Proof.
  revert m. induction l as [|kv l IH]; intros m; [done|].
  simpl. unfold changed_visit at 2. case_decide; apply IH.
Qed.

Lemma changed_fold_noisy l c m :
  Exists (λ kv, Health kv.2 ≠ Healthy) l →
  (foldl changed_visit (c, m) l).1 = true.
Proof.
  revert c m. induction l as [|kv l IH]; intros c m Hex.
  - by apply Exists_nil in Hex.
  - simpl. unfold changed_visit at 2, getDeviceState.
    destruct (decide (Health kv.2 ≠ Healthy)) as [Hne|Heq].
    + apply changed_fold_sticky.
    + apply Exists_cons in Hex as [?|Hex]; [done|]. by apply IH.
Qed.

Lemma changed_fold_lookup l c m (k : string) :
  NoDup l.*1 →
  (foldl changed_visit (c, m) l).2 !! k =
    match (list_to_map l : gmap string pluginapi.Device) !! k with
    | Some d =>
        if decide (Health d ≠ Healthy)
        then Some {| ID := ID d; Health := Healthy |}
        else m !! k
    | None => m !! k
    end.
Proof.
  revert c m. induction l as [|[k0 d0] l IH]; intros c m Hnd; [done|].
  apply NoDup_cons in Hnd as [Hk0 Hnd]. simpl in Hk0.
  rewrite list_to_map_cons. simpl foldl.
  unfold changed_visit at 2, getDeviceState. simpl.
  destruct (decide (k = k0)) as [->|Hne].
  - rewrite lookup_insert_eq.
    apply (not_elem_of_list_to_map_1 (M := gmap string)) in Hk0.
    destruct (decide (Health d0 ≠ Healthy)).
    + rewrite IH by done. rewrite Hk0. by rewrite lookup_insert_eq.
    + rewrite IH by done. by rewrite Hk0.
  - rewrite lookup_insert_ne by done.
    destruct (decide (Health d0 ≠ Healthy)).
    + rewrite IH by done. by rewrite lookup_insert_ne.
    + by rewrite IH.
Qed.

(** [changed] sets every record to Healthy, and reports a change exactly
    when some record was not. *)
Lemma changed_run st :
  changed st =
    (Done (bool_decide (¬ all_healthy (devices (nf st)))),
     {| nf := set_devices (heal <$> devices (nf st)) (nf st);
        trace := trace st |}).
Proof.
  unfold changed. msimpl.
  set (m := devices (nf st)).
  set (r := foldl changed_visit (false, m) (map_to_list m)).
  assert (r.2 = heal <$> m) as ->.
  { apply map_eq. intros k. unfold r.
    rewrite changed_fold_lookup by apply NoDup_fst_map_to_list.
    rewrite list_to_map_to_list, lookup_fmap.
    destruct (m !! k) as [d|] eqn:Hd; simpl; [|done].
    case_decide as Hh; [done|]. by rewrite heal_healthy. }
  assert (r.1 = bool_decide (¬ all_healthy m)) as ->; [|done].
  unfold r. destruct (decide (all_healthy m)) as [Hh|Hh].
  - rewrite bool_decide_eq_false_2 by auto.
    rewrite changed_fold_quiet; [done|].
    apply map_Forall_to_list in Hh.
    eapply Forall_impl; [exact Hh|]. by intros [k d].
  - rewrite bool_decide_eq_true_2 by done.
    apply changed_fold_noisy.
    unfold all_healthy in Hh. rewrite map_Forall_to_list in Hh.
    apply not_Forall_Exists in Hh; [|apply _].
    eapply Exists_impl; [exact Hh|]. by intros [k d].
Qed.

Lemma heal_all_healthy m : all_healthy (heal <$> m).
Proof.
  intros k d. rewrite lookup_fmap.
  destruct (m !! k); simpl; [|done]. by intros [= <-].
Qed.

Lemma heal_wf m : registry_wf m → registry_wf (heal <$> m).
Proof.
  intros Hwf k d. rewrite lookup_fmap.
  destruct (m !! k) as [d0|] eqn:Hd; simpl; [|done].
  intros [= <-]. simpl. by apply Hwf in Hd.
Qed.

Lemma heal_id m : all_healthy m → heal <$> m = m.
Proof.
  intros Hh. apply map_eq. intros k. rewrite lookup_fmap.
  destruct (m !! k) as [d|] eqn:Hd; simpl; [|done].
  f_equal. apply heal_healthy. by apply Hh in Hd.
Qed.

(** With every record Healthy the health check reports no change and
    touches nothing. *)
Lemma changed_quiet st :
  all_healthy (devices (nf st)) → changed st = (Done false, st).
Proof.
  intros Hh. rewrite changed_run, heal_id, set_devices_id by done.
  rewrite bool_decide_eq_false_2 by auto. by destruct st.
Qed.

End ChangedFacts.

(** ** The vendor connection and discovery *)

Section ConnectionFacts.

Variable E : Env.
Implicit Types (st : State).

Lemma ensureConnected_set st c :
  client (nf st) = Some c → ensureConnected E st = (Done None, st).
Proof. intros Hc. unfold ensureConnected. msimpl. by rewrite Hc. Qed.

Lemma ensureConnected_dial st c :
  client (nf st) = None →
  grpc_DialContext E (vendorDial E) = inr c →
  ensureConnected E st =
    (Done None,
     {| nf := set_client (Some (NewDeviceServiceClient c))
                (set_conn (Some c) (nf st));
        trace := trace st ++ [Dial (vendorDial E) (inr c)] |}).
Proof.
  intros Hc Hd. unfold ensureConnected. msimpl. by rewrite Hc, Hd.
Qed.

Lemma ensureConnected_refused st e :
  client (nf st) = None →
  grpc_DialContext E (vendorDial E) = inl e →
  ensureConnected E st =
    (Done (Some (Errorf ("failed to connect to vendor plugin: " +:+ Error e))),
     {| nf := nf st;
        trace := trace st ++ [Dial (vendorDial E) (inl e)] |}).
Proof.
  intros Hc Hd. unfold ensureConnected. msimpl. by rewrite Hc, Hd.
Qed.

(** A call that reports success leaves a client behind. *)
Lemma ensureConnected_client st :
  (ensureConnected E st).1 = Done None →
  is_Some (client (nf (ensureConnected E st).2)).
Proof.
  destruct (client (nf st)) as [c|] eqn:Hc.
  - rewrite (ensureConnected_set st c Hc). simpl. by rewrite Hc.
  - destruct (grpc_DialContext E (vendorDial E)) as [e|c] eqn:Hd.
    + by rewrite (ensureConnected_refused st e Hc Hd).
    + rewrite (ensureConnected_dial st c Hc Hd). simpl. eauto.
Qed.

(** [GetDevices] either fails and leaves the registry as it was, or
    files every device the vendor returned. *)
Lemma GetDevices_cases st :
  (∃ e, (GetDevices E st).1 = Done (Some e) ∧
        devices (nf (GetDevices E st).2) = devices (nf st)) ∨
  (∃ c ds, (GetDevices E st).1 = Done None ∧
           client (nf (GetDevices E st).2) = Some c ∧
           vendor_GetDevices E c = inr ds ∧
           devices (nf (GetDevices E st).2) = upsert_all ds (devices (nf st))).
Proof.
  unfold GetDevices, ensureConnected. msimpl.
  destruct (client (nf st)) as [c|] eqn:Hc; simpl.
  - rewrite Hc. destruct (vendor_GetDevices E c) as [e|ds] eqn:Hv; simpl.
    + left. eauto.
    + right. exists c, ds. rewrite storeDevices_run. simpl. by rewrite Hc.
  - destruct (grpc_DialContext E (vendorDial E)) as [e|c]; simpl.
    + left. eauto.
    + destruct (vendor_GetDevices E (NewDeviceServiceClient c))
        as [e|ds] eqn:Hv; simpl.
      * left. eauto.
      * right. exists (NewDeviceServiceClient c), ds.
        rewrite storeDevices_run. simpl. done.
Qed.

End ConnectionFacts.

(** C9.  The vendor connection is made on first need and kept: with no
    client stored, [ensureConnected] dials once and, when the dial
    succeeds, stores the connection and the client built on it; with a
    client stored it reports success at once, without any effect on the
    state or the trace; so after a call that succeeded, a further call, in
    whatever environment, changes nothing. *)
Theorem ensureConnected_memoized (E : Env) (st : State) :
  (∀ c, client (nf st) = None →
        grpc_DialContext E (vendorDial E) = inr c →
        ensureConnected E st =
          (Done None,
           {| nf := set_client (Some (NewDeviceServiceClient c))
                      (set_conn (Some c) (nf st));
              trace := trace st ++ [Dial (vendorDial E) (inr c)] |})) ∧
  (is_Some (client (nf st)) → ensureConnected E st = (Done None, st)) ∧
  (∀ E', (ensureConnected E st).1 = Done None →
         ensureConnected E' (ensureConnected E st).2 =
           (Done None, (ensureConnected E st).2)).
Proof.
  split_and!.
  - intros c. apply ensureConnected_dial.
  - intros [c Hc]. by apply (ensureConnected_set E st c).
  - intros E' [c Hc]%ensureConnected_client.
    by apply (ensureConnected_set E' _ c).
Qed.

Lemma ensureConnected_memoized_witness :
  ensureConnected (env_up []) boot =
    (Done None,
     {| nf := set_client
                (Some (NewDeviceServiceClient
                   {| target := "/var/run/dpu-daemon/vendor-plugin/vendor-plugin.sock" |}))
                (set_conn
                   (Some {| target := "/var/run/dpu-daemon/vendor-plugin/vendor-plugin.sock" |})
                   NewGrpcPlugin);
        trace := [Dial (vendorDial (env_up []))
                    (inr {| target := "/var/run/dpu-daemon/vendor-plugin/vendor-plugin.sock" |})] |}) ∧
  ensureConnected (env_up []) (ensureConnected (env_up []) boot).2 =
    (Done None, (ensureConnected (env_up []) boot).2).
Proof.
  split.
  - apply (ensureConnected_memoized (env_up []) boot); reflexivity.
  - apply (ensureConnected_memoized (env_up []) boot). reflexivity.
Defined.

(** C3.  After a refresh that succeeded, for the devices D the vendor
    returned: the registry holds under each identity of D one record, of
    that identity and Healthy, and the snapshot contains it; no two
    records of the snapshot share an identity; identities outside D are as
    they were; and a registry that was empty holds the records of D and
    nothing else. *)
Theorem GetDevices_snapshot (E : Env) (st : State)
    (c : DeviceServiceClient) (ds : list pb.Device) :
  registry_wf (devices (nf st)) →
  (GetDevices E st).1 = Done None →
  client (nf (GetDevices E st).2) = Some c →
  vendor_GetDevices E c = inr ds →
  let n' := nf (GetDevices E st).2 in
  (∀ id, id ∈ pb.ID <$> ds →
         devices n' !! id = Some {| ID := id; Health := Healthy |} ∧
         {| ID := id; Health := Healthy |} ∈ snapshot n') ∧
  NoDup (ID <$> snapshot n') ∧
  (∀ id, id ∉ pb.ID <$> ds → devices n' !! id = devices (nf st) !! id) ∧
  (devices (nf st) = ∅ →
   ∀ d, d ∈ snapshot n' ↔
        ∃ id, id ∈ pb.ID <$> ds ∧ d = {| ID := id; Health := Healthy |}).
Proof.
  intros Hwf Hok Hc Hv n'.
  destruct (GetDevices_cases E st) as [(e & He & _)|(c' & ds' & _ & Hc' & Hv' & Hd)].
  { rewrite Hok in He. discriminate He. }
  assert (c' = c) as -> by congruence.
  assert (ds' = ds) as -> by congruence.
  fold n' in Hd. split_and!.
  - intros id Hin.
    assert (devices n' !! id = Some {| ID := id; Health := Healthy |}) as Hl.
    { rewrite Hd, upsert_all_lookup. by rewrite decide_True. }
    split; [done|]. apply elem_of_snapshot. eauto.
  - apply snapshot_NoDup. rewrite Hd. by apply upsert_all_wf.
  - intros id Hnin. rewrite Hd, upsert_all_lookup. by rewrite decide_False.
  - intros Hempty d. rewrite elem_of_snapshot. split.
    + intros [k Hk]. rewrite Hd, upsert_all_lookup, Hempty in Hk.
      case_decide as Hin; [|done]. exists k. by simplify_eq.
    + intros (id & Hin & ->). exists id.
      rewrite Hd, upsert_all_lookup. by rewrite decide_True.
Qed.

Lemma GetDevices_snapshot_witness :
  let ds := [pb.mkDevice "A"; pb.mkDevice "B"; pb.mkDevice "A"] in
  let n' := nf (GetDevices (env_up ds) boot).2 in
  (∀ id, id ∈ pb.ID <$> ds →
         devices n' !! id = Some {| ID := id; Health := Healthy |} ∧
         {| ID := id; Health := Healthy |} ∈ snapshot n') ∧
  NoDup (ID <$> snapshot n') ∧
  (∀ id, id ∉ pb.ID <$> ds → devices n' !! id = devices (nf boot) !! id) ∧
  (devices (nf boot) = ∅ →
   ∀ d, d ∈ snapshot n' ↔
        ∃ id, id ∈ pb.ID <$> ds ∧ d = {| ID := id; Health := Healthy |}).
Proof.
  intros ds.
  apply (GetDevices_snapshot (env_up ds) boot
           (NewDeviceServiceClient
              {| target := "/var/run/dpu-daemon/vendor-plugin/vendor-plugin.sock" |})
           ds).
  - apply map_Forall_empty.
  - reflexivity.
  - reflexivity.
  - reflexivity.
Defined.

(** ** Invariants of the registry *)

Section Keeps.

Context {P : gmap string pluginapi.Device → Prop}.

Lemma keeps_ret {A} (a : A) : keeps P (mret a).
Proof. by intros st. Qed.

Lemma keeps_bind {A B} (m : M A) (f : A → M B) :
  keeps P m → (∀ a, keeps P (f a)) → keeps P (m ≫= f).
Proof.
  intros Hm Hf st HP. specialize (Hm st HP). msimpl.
  destruct (m st) as [[a|r] st1]; simpl in *; [by apply Hf | done].
Qed.

Lemma keeps_emit (e : event) : keeps P (emit e).
Proof. by intros st. Qed.

Lemma keeps_get_nf : keeps P get_nf.
Proof. by intros st. Qed.

Lemma keeps_get_trace : keeps P get_trace.
Proof. by intros st. Qed.

Lemma keeps_panic {A} (r : string) : keeps P (panic (A := A) r).
Proof. by intros st. Qed.

Lemma keeps_modify (f : nfResources → nfResources) :
  (∀ n, devices (f n) = devices n) → keeps P (modify_nf f).
Proof. intros Hf st HP. simpl. by rewrite Hf. Qed.

End Keeps.

(** One step through a computation whose pieces all maintain the
    property. *)
Ltac keeps_step :=
  lazymatch goal with
  | |- keeps _ (mbind _ _) => apply keeps_bind; [|intros ?]
  | |- keeps _ (mret _) => apply keeps_ret
  | |- keeps _ (emit _) => apply keeps_emit
  | |- keeps _ get_nf => apply keeps_get_nf
  | |- keeps _ get_trace => apply keeps_get_trace
  | |- keeps _ (panic _) => apply keeps_panic
  | |- keeps _ (modify_nf _) => apply keeps_modify; by intros []
  | |- keeps _ (match ?x with _ => _ end) => destruct x
  end.

Section RegistryInvariants.

Context {P : gmap string pluginapi.Device → Prop}.

Lemma keeps_allocateDevices ids devName : keeps P (allocateDevices ids devName).
Proof. intros st HP. by rewrite allocateDevices_frame. Qed.

Lemma keeps_Allocate rqt : keeps P (Allocate rqt).
Proof. intros st HP. unfold Allocate. by rewrite allocateContainers_frame. Qed.

Lemma keeps_sendDevices stream : keeps P (sendDevices stream).
Proof. unfold sendDevices. repeat keeps_step. Qed.

Lemma keeps_ensureConnected E : keeps P (ensureConnected E).
Proof. unfold ensureConnected. repeat keeps_step. Qed.

Lemma keeps_connectWithRetry E endpoint : keeps P (connectWithRetry E endpoint).
Proof. unfold connectWithRetry. repeat keeps_step. Qed.

Lemma keeps_cleanup E : keeps P (cleanup E).
Proof. unfold cleanup. repeat keeps_step. Qed.

Lemma keeps_RegisterDevicePlugin E : keeps P (RegisterDevicePlugin E).
Proof.
  unfold RegisterDevicePlugin.
  repeat first [apply keeps_connectWithRetry | keeps_step].
Qed.

Lemma keeps_ListAndWatch_from stream fuel c :
  keeps P changed → keeps P (ListAndWatch_from stream fuel c).
Proof.
  intros Hch. revert c. induction fuel as [|fuel IH]; intros c; simpl.
  - apply keeps_ret.
  - apply keeps_bind.
    + destruct c; [apply keeps_sendDevices | apply keeps_ret].
    + intros [e|]; [apply keeps_ret|].
      apply keeps_bind; [apply keeps_emit|intros _].
      apply keeps_bind; [done|]. intros c'. apply IH.
Qed.

Lemma keeps_Start E : keeps P (GetDevices E) → keeps P (Start E).
Proof.
  intros HG. unfold Start.
  repeat first [apply keeps_cleanup | apply keeps_RegisterDevicePlugin
               | exact HG | keeps_step].
Qed.

End RegistryInvariants.

Lemma keeps_GetDevices_healthy E : keeps all_healthy (GetDevices E).
Proof.
  intros st Hh.
  destruct (GetDevices_cases E st) as [(e & _ & ->)|(c & ds & _ & _ & _ & ->)];
    [done|]. by apply upsert_all_healthy.
Qed.

Lemma keeps_GetDevices_wf E : keeps registry_wf (GetDevices E).
Proof.
  intros st Hh.
  destruct (GetDevices_cases E st) as [(e & _ & ->)|(c & ds & _ & _ & _ & ->)];
    [done|]. by apply upsert_all_wf.
Qed.

Lemma keeps_changed_healthy : keeps all_healthy changed.
Proof. intros st _. rewrite changed_run. simpl. apply heal_all_healthy. Qed.

Lemma keeps_changed_wf : keeps registry_wf changed.
Proof. intros st Hwf. rewrite changed_run. simpl. by apply heal_wf. Qed.

(** Every state of a process has a well-formed registry of healthy
    records. *)
Lemma reachable_registry st :
  reachable st →
  registry_wf (devices (nf st)) ∧ all_healthy (devices (nf st)).
Proof.
  induction 1 as [|E st _ [IHw IHh]|st _ [IHw IHh]|rqt st _ [IHw IHh]
                  |stream fuel st _ [IHw IHh]|E st _ [IHw IHh]].
  - split; apply map_Forall_empty.
  - split; [by apply keeps_GetDevices_wf | by apply keeps_GetDevices_healthy].
  - split; [by apply keeps_changed_wf | by apply keeps_changed_healthy].
  - split; by apply keeps_Allocate.
  - split; apply keeps_ListAndWatch_from;
      auto using keeps_changed_wf, keeps_changed_healthy.
  - split; apply keeps_Start;
      auto using keeps_GetDevices_wf, keeps_GetDevices_healthy.
Qed.

(** The two errors of [Allocate] never have the same text. *)
Lemma allocate_errors_differ (a b : string) :
  Errorf ("invalid allocation request with non-existing device: " +:+ a) ≠
  Errorf ("invalid allocation request with unhealthy device: " +:+ b).
Proof.
  intros H. apply (f_equal (λ e, String.get 32 (Error e))) in H.
  vm_compute in H. discriminate H.
Qed.

(** C10.  In every state a process can reach from the fresh plugin, every
    record of the registry has the status Healthy, so [Allocate] never
    fails with the "unhealthy device" error. *)
Theorem reachable_never_unhealthy (st : State) :
  reachable st →
  all_healthy (devices (nf st)) ∧
  ∀ rqt id,
    (Allocate rqt st).1 ≠
      Done (inl (Errorf
        ("invalid allocation request with unhealthy device: " +:+ id))).
Proof.
  intros [_ Hh]%reachable_registry. split; [done|].
  intros rqt id Hres.
  destruct (decide (Forall (healthy_in (devices (nf st))) (all_ids rqt)))
    as [Hall|Hnot].
  - unfold Allocate in Hres.
    rewrite (allocateContainers_healthy _ _ _ _ Hall) in Hres. discriminate Hres.
  - apply first_offender_split in Hnot
      as (good & bad & rest & Hsplit & Hgood & Hbad); [|apply _].
    unfold Allocate in Hres.
    rewrite (allocateContainers_offender _ good bad rest _ _ _ Hsplit Hgood Hbad)
      in Hres.
    destruct (devices (nf st) !! bad) as [d|] eqn:Hd.
    + apply Hbad. unfold healthy_in. rewrite Hd. simpl. f_equal.
      by apply Hh in Hd.
    + apply (allocate_errors_differ bad id).
      exact (f_equal (λ r, match r with
                           | Done (inl e) => e
                           | _ => Errorf ""
                           end) Hres).
Qed.

Lemma reachable_never_unhealthy_witness :
  all_healthy (devices (nf (GetDevices (env_up [pb.mkDevice "A"]) boot).2)) ∧
  ∀ rqt id,
    (Allocate rqt (GetDevices (env_up [pb.mkDevice "A"]) boot).2).1 ≠
      Done (inl (Errorf
        ("invalid allocation request with unhealthy device: " +:+ id))).
Proof.
  apply (reachable_never_unhealthy (GetDevices (env_up [pb.mkDevice "A"]) boot).2).
  apply reach_GetDevices, reach_boot.
Defined.

(** ** The inventory streamer *)

Section WatchFacts.

Variable stream : ListAndWatchServer.
Implicit Types (st : State).

Lemma sendDevices_pushed st :
  Send stream (trace st ++ [push_log st]) (push_of st) = None →
  sendDevices stream st =
    (Done None,
     {| nf := nf st;
        trace := trace st ++ [push_log st; StreamSend (push_of st) None] |}).
Proof.
  intros Hs. unfold sendDevices. msimpl.
  unfold push_log, push_of in Hs. rewrite Hs. simpl.
  by rewrite <- app_assoc.
Qed.

Lemma sendDevices_failed st e s :
  Send stream (trace st ++ [push_log st]) (push_of st) = Some e →
  grpcServer (nf st) = Some s →
  sendDevices stream st =
    (Done (Some e),
     {| nf := set_grpcServer (Some server_stopped) (nf st);
        trace := trace st ++ [push_log st; StreamSend (push_of st) (Some e);
                              send_failed e; ServerStop] |}).
Proof.
  intros Hs Hg. unfold sendDevices. msimpl.
  unfold push_log, push_of in Hs. rewrite Hs. simpl. rewrite Hg. simpl.
  by rewrite <- !app_assoc.
Qed.

(** Without a server to stop, a failed push ends in a nil dereference. *)
Lemma sendDevices_no_server st e :
  Send stream (trace st ++ [push_log st]) (push_of st) = Some e →
  grpcServer (nf st) = None →
  ∃ r, (sendDevices stream st).1 = Panic r.
Proof.
  intros Hs Hg. unfold sendDevices. msimpl.
  unfold push_log, push_of in Hs. rewrite Hs. simpl. rewrite Hg. simpl.
  eauto.
Qed.

(** From here on the two methods are used through their equations. *)
#[local] Opaque changed sendDevices.

(** Once every record is Healthy and the variable [changed] is false, the
    loop only sleeps. *)
Lemma ListAndWatch_from_clean fuel st :
  all_healthy (devices (nf st)) →
  ListAndWatch_from stream fuel false st =
    (Done (Watching false),
     {| nf := nf st; trace := trace st ++ replicate fuel (Sleep 5) |}).
Proof.
  revert st. induction fuel as [|fuel IH]; intros st Hh.
  - simpl. msimpl. rewrite app_nil_r. by destruct st.
  - simpl. msimpl. rewrite changed_quiet by done. simpl.
    rewrite IH by done. simpl. by rewrite <- app_assoc.
Qed.

(** The three ways through one iteration of the loop. *)
Lemma ListAndWatch_from_failed fuel st e s :
  Send stream (trace st ++ [push_log st]) (push_of st) = Some e →
  grpcServer (nf st) = Some s →
  ListAndWatch_from stream (S fuel) true st =
    (Done (Returned e),
     {| nf := set_grpcServer (Some server_stopped) (nf st);
        trace := trace st ++ [push_log st; StreamSend (push_of st) (Some e);
                              send_failed e; ServerStop] |}).
Proof.
  intros Hs Hg. simpl. unfold mbind at 1, M_bind at 1.
  by rewrite (sendDevices_failed st e s Hs Hg).
Qed.

Lemma ListAndWatch_from_pushed fuel st :
  Send stream (trace st ++ [push_log st]) (push_of st) = None →
  ListAndWatch_from stream (S fuel) true st =
    ListAndWatch_from stream fuel
      (bool_decide (¬ all_healthy (devices (nf st))))
      {| nf := set_devices (heal <$> devices (nf st)) (nf st);
         trace := trace st ++
           [push_log st; StreamSend (push_of st) None; Sleep 5] |}.
Proof.
  intros Hs. simpl. unfold mbind at 1, M_bind at 1.
  rewrite (sendDevices_pushed st Hs). msimpl.
  rewrite changed_run. simpl. by rewrite <- app_assoc.
Qed.

Lemma ListAndWatch_from_idle fuel st :
  ListAndWatch_from stream (S fuel) false st =
    ListAndWatch_from stream fuel
      (bool_decide (¬ all_healthy (devices (nf st))))
      {| nf := set_devices (heal <$> devices (nf st)) (nf st);
         trace := trace st ++ [Sleep 5] |}.
Proof. simpl. msimpl. by rewrite changed_run. Qed.

(** What a run of the loop adds to the trace, and what a failed push
    among it entails. *)
Lemma ListAndWatch_from_trace fuel c st :
  is_Some (grpcServer (nf st)) →
  ∃ new,
    trace (ListAndWatch_from stream fuel c st).2 = trace st ++ new ∧
    ∀ resp e, StreamSend resp (Some e) ∈ new →
      (ListAndWatch_from stream fuel c st).1 = Done (Returned e) ∧
      grpcServer (nf (ListAndWatch_from stream fuel c st).2) =
        Some server_stopped ∧
      ∃ pre, new = pre ++ [StreamSend resp (Some e); send_failed e; ServerStop].
Proof.
  revert c st. induction fuel as [|fuel IH]; intros c st Hg.
  - exists []. simpl. rewrite app_nil_r. split; [done|].
    intros resp e Hin. by apply elem_of_nil in Hin.
  - (* the iterations after a first one that did not return *)
    assert (∀ c' st' (new0 : list event),
      is_Some (grpcServer (nf st')) →
      trace st' = trace st ++ new0 →
      (∀ resp e, StreamSend resp (Some e) ∉ new0) →
      ∃ new,
        trace (ListAndWatch_from stream fuel c' st').2 = trace st ++ new ∧
        ∀ resp e, StreamSend resp (Some e) ∈ new →
          (ListAndWatch_from stream fuel c' st').1 = Done (Returned e) ∧
          grpcServer (nf (ListAndWatch_from stream fuel c' st').2) =
            Some server_stopped ∧
          ∃ pre, new = pre ++ [StreamSend resp (Some e); send_failed e; ServerStop])
      as Hrest.
    { intros c' st' new0 Hg' Ht' Hnew0.
      destruct (IH c' st' Hg') as (new1 & Ht1 & Hfail).
      exists (new0 ++ new1). split.
      - rewrite Ht1, Ht'. by rewrite <- app_assoc.
      - intros resp e [Hin|Hin]%elem_of_app; [by apply Hnew0 in Hin|].
        destruct (Hfail resp e Hin) as (Hr & Hs & pre & ->).
        split_and!; [done..|].
        exists (new0 ++ pre). by rewrite <- app_assoc. }
    destruct c.
    + destruct (Send stream (trace st ++ [push_log st]) (push_of st))
        as [e|] eqn:Hs.
      * destruct Hg as [s Hg].
        rewrite (ListAndWatch_from_failed fuel st e s Hs Hg). simpl.
        eexists. split; [done|]. intros resp e' Hin.
        assert (resp = push_of st ∧ e' = e) as [-> ->].
        { repeat (apply elem_of_cons in Hin as [Hin|Hin];
                  [by simplify_eq|]).
          by apply elem_of_nil in Hin. }
        split_and!; [done..|]. by exists [push_log st].
      * rewrite (ListAndWatch_from_pushed fuel st Hs).
        apply (Hrest _ _ [push_log st; StreamSend (push_of st) None; Sleep 5]);
          [done..|].
        intros resp e Hin.
        repeat (apply elem_of_cons in Hin as [Hin|Hin]; [done|]).
        by apply elem_of_nil in Hin.
    + rewrite (ListAndWatch_from_idle fuel st).
      apply (Hrest _ _ [Sleep 5]); [done..|].
      intros resp e Hin.
      repeat (apply elem_of_cons in Hin as [Hin|Hin]; [done|]).
      by apply elem_of_nil in Hin.
Qed.

(** One iteration of the loop, whatever it meets. *)
Lemma ListAndWatch_from_step fuel c st :
  ListAndWatch_from stream (S fuel) c st =
    match (if c then sendDevices stream else mret None) st with
    | (Done (Some e), st1) => (Done (Returned e), st1)
    | (Done None, st1) =>
        match changed {| nf := nf st1; trace := trace st1 ++ [Sleep 5] |} with
        | (Done c', st2) => ListAndWatch_from stream fuel c' st2
        | (Panic r, st2) => (Panic r, st2)
        end
    | (Panic r, st1) => (Panic r, st1)
    end.
Proof.
  simpl. unfold mbind at 1, M_bind at 1.
  destruct ((if c then sendDevices stream else mret None) st)
    as [[[e|]|r] st1]; reflexivity.
Qed.

(** A loop that has returned stays as it is, whatever further iterations
    are allowed. *)
Lemma ListAndWatch_from_stable fuel more c st e :
  (ListAndWatch_from stream fuel c st).1 = Done (Returned e) →
  ListAndWatch_from stream (fuel + more) c st =
  ListAndWatch_from stream fuel c st.
Proof.
  revert c st. induction fuel as [|fuel IH]; intros c st Hret;
    [by simpl in Hret|].
  change (S fuel + more) with (S (fuel + more)).
  rewrite !ListAndWatch_from_step. rewrite ListAndWatch_from_step in Hret.
  destruct ((if c then sendDevices stream else mret None) st)
    as [[[e'|]|r] st1]; [done| |done].
  destruct (changed _) as [[c'|r] st2]; [|done].
  by apply IH.
Qed.

End WatchFacts.

(** C4.  A watch loop started on a registry in which every record is
    Healthy, so that the health check has no change to report, and whose
    first push is accepted, pushes once: however many iterations it runs,
    it has logged and sent the snapshot once, then slept five seconds in
    each iteration; it is still running, its variable [changed] is false
    and the plugin state is as it was. *)
Theorem ListAndWatch_pushes_once (stream : ListAndWatchServer) (st : State)
    (fuel : nat) :
  all_healthy (devices (nf st)) →
  Send stream (trace st ++ [push_log st]) (push_of st) = None →
  ListAndWatch stream (S fuel) st =
    (Done (Watching false),
     {| nf := nf st;
        trace := trace st ++ [push_log st; StreamSend (push_of st) None]
                   ++ replicate (S fuel) (Sleep 5) |}).
Proof.
  intros Hh Hs. unfold ListAndWatch.
  rewrite (ListAndWatch_from_pushed stream fuel st Hs).
  rewrite heal_id, set_devices_id by done.
  rewrite bool_decide_eq_false_2 by auto.
  rewrite ListAndWatch_from_clean by done. simpl.
  by rewrite <- app_assoc.
Qed.

Lemma ListAndWatch_pushes_once_witness :
  let st := (GetDevices (env_up [pb.mkDevice "A"]) boot).2 in
  ListAndWatch stream_open 3 st =
    (Done (Watching false),
     {| nf := nf st;
        trace := trace st ++ [push_log st; StreamSend (push_of st) None]
                   ++ [Sleep 5; Sleep 5; Sleep 5] |}).
Proof.
  intros st.
  apply (ListAndWatch_pushes_once stream_open st 2).
  - apply keeps_GetDevices_healthy, map_Forall_empty.
  - reflexivity.
Defined.

(** C5.  When a push of a watch loop fails, on a plugin that has a
    server, the loop returns the error of that push and the gRPC server is
    stopped: the failed push, its log line and the stop are the last
    effects of the loop, and no further iteration changes the outcome. *)
Theorem push_failure_stops_server (stream : ListAndWatchServer) (fuel : nat)
    (c : bool) (st : State) (new : list event)
    (resp : ListAndWatchResponse) (e : error) :
  is_Some (grpcServer (nf st)) →
  trace (ListAndWatch_from stream fuel c st).2 = trace st ++ new →
  StreamSend resp (Some e) ∈ new →
  (ListAndWatch_from stream fuel c st).1 = Done (Returned e) ∧
  grpcServer (nf (ListAndWatch_from stream fuel c st).2) = Some server_stopped ∧
  (∃ pre, new = pre ++ [StreamSend resp (Some e); send_failed e; ServerStop]) ∧
  (∀ more, ListAndWatch_from stream (fuel + more) c st =
           ListAndWatch_from stream fuel c st).
Proof.
  intros Hg Ht Hin.
  destruct (ListAndWatch_from_trace stream fuel c st Hg) as (new' & Ht' & Hfail).
  assert (new' = new) as ->.
  { rewrite Ht in Ht'. by apply app_inv_head in Ht'. }
  destruct (Hfail resp e Hin) as (Hr & Hs & Hpre).
  split_and!; [done..|].
  intros more. by apply (ListAndWatch_from_stable stream fuel more c st e).
Qed.

Lemma push_failure_stops_server_witness :
  let st := {| nf := set_grpcServer (Some {| serving := true; stopped := false |})
                       NewGrpcPlugin;
               trace := [] |} in
  let e := {| Error := "transport is closing"; IsNotExist := false |} in
  (ListAndWatch_from stream_broken 2 true st).1 = Done (Returned e) ∧
  grpcServer (nf (ListAndWatch_from stream_broken 2 true st).2) =
    Some server_stopped ∧
  (∃ pre, [push_log st; StreamSend (push_of st) (Some e); send_failed e; ServerStop] =
          pre ++ [StreamSend (push_of st) (Some e); send_failed e; ServerStop]) ∧
  (∀ more, ListAndWatch_from stream_broken (2 + more) true st =
           ListAndWatch_from stream_broken 2 true st).
Proof.
  intros st e.
  apply (push_failure_stops_server stream_broken 2 true st
           [push_log st; StreamSend (push_of st) (Some e); send_failed e; ServerStop]
           (push_of st) e).
  - simpl. eauto.
  - reflexivity.
  - apply list_elem_of_In. simpl. auto.
Defined.

(** ** Startup *)

Section StartFacts.

Variable E : Env.
Implicit Types (st : State).

Lemma cleanup_run st :
  cleanup E st =
    (Done (match os_Remove E (socketPath E (nf st)) with
           | Some err => if IsNotExist err then None else Some err
           | None => None
           end),
     {| nf := nf st;
        trace := trace st ++
          [OsRemove (socketPath E (nf st))
             (os_Remove E (socketPath E (nf st)))] |}).
Proof.
  unfold cleanup. msimpl.
  destruct (os_Remove E (socketPath E (nf st))) as [err|]; [|done].
  by destruct (IsNotExist err).
Qed.

Lemma cleanup_frame st : nf (cleanup E st).2 = nf st.
Proof. by rewrite cleanup_run. Qed.

(** The self-test dial is the only thing [connectWithRetry] does, and its
    outcome is the outcome of the method. *)
Lemma connectWithRetry_run endpoint st :
  connectWithRetry E endpoint st =
    (Done (grpc_DialContext E (retryDial endpoint)),
     {| nf := nf st;
        trace := trace st ++
          Dial (retryDial endpoint) (grpc_DialContext E (retryDial endpoint)) ::
          match grpc_DialContext E (retryDial endpoint) with
          | inl err =>
              [LogError err "Failed to establish connection with retry"
                 [("endpoint", endpoint)]]
          | inr _ => []
          end |}).
Proof.
  unfold connectWithRetry. msimpl.
  destruct (grpc_DialContext E (retryDial endpoint)) as [err|c]; simpl.
  - by rewrite <- app_assoc.
  - done.
Qed.

(** With the listener bound, the orchestrator reachable, the self-test
    passed and the registration accepted, [RegisterDevicePlugin] succeeds
    and leaves a serving server and an untouched registry. *)
Lemma RegisterDevicePlugin_ok st lis k t :
  net_Listen E (socketPath E (nf st)) = inr lis →
  grpc_DialContext E (kubeletDial E) = inr k →
  grpc_DialContext E (retryDial ("unix:" +:+ socketPath E (nf st))) = inr t →
  kubelet_Register E k (registerRequest (nf st)) = None →
  (RegisterDevicePlugin E st).1 = Done None ∧
  devices (nf (RegisterDevicePlugin E st).2) = devices (nf st) ∧
  grpcServer (nf (RegisterDevicePlugin E st).2) =
    Some {| serving := true; stopped := false |}.
Proof.
  intros Hl Hk Ht Hr. unfold RegisterDevicePlugin. msimpl.
  rewrite Hl. simpl. rewrite Hk. simpl.
  rewrite connectWithRetry_run. simpl. rewrite Ht. simpl.
  rewrite Hr. done.
Qed.

(** [Start], step by step. *)
Lemma Start_steps st :
  Start E st =
    match cleanup E st with
    | (Done (Some e), st1) =>
        (Done (Some (Errorf ("failed to cleanup: " +:+ Error e))), st1)
    | (Done None, st1) =>
        match GetDevices E st1 with
        | (Done (Some e), st2) =>
            (Done (Some (Errorf ("failed to get devices: " +:+ Error e))), st2)
        | (Done None, st2) =>
            match RegisterDevicePlugin E st2 with
            | (Done (Some e), st3) =>
                (Done (Some (Errorf
                   ("failed to register the device plugin: " +:+ Error e))), st3)
            | (Done None, st3) => (Done None, st3)
            | (Panic r, st3) => (Panic r, st3)
            end
        | (Panic r, st2) => (Panic r, st2)
        end
    | (Panic r, st1) => (Panic r, st1)
    end.
Proof.
  unfold Start, mbind, M_bind, mret, M_ret.
  destruct (cleanup E st) as [[[e|]|r] st1]; [done| |done].
  destruct (GetDevices E st1) as [[[e|]|r] st2]; [done| |done].
  by destruct (RegisterDevicePlugin E st2) as [[[e|]|r] st3].
Qed.

End StartFacts.

(** C7.  Cleanup reports no error when the socket file is absent; from a
    fresh plugin, a startup whose steps all succeed completes whatever
    devices discovery returns, and with none the registry stays empty; an
    error of cleanup, of discovery or of the serve, self-test and register
    step ends the startup there, with that error wrapped. *)
Theorem Start_startup (E : Env) (st : State) :
  (∀ e, os_Remove E (socketPath E (nf st)) = Some e → IsNotExist e = true →
        (cleanup E st).1 = Done None) ∧
  (∀ vc ds lis k t,
     nf st = NewGrpcPlugin →
     (cleanup E st).1 = Done None →
     grpc_DialContext E (vendorDial E) = inr vc →
     vendor_GetDevices E (NewDeviceServiceClient vc) = inr ds →
     net_Listen E (socketPath E NewGrpcPlugin) = inr lis →
     grpc_DialContext E (kubeletDial E) = inr k →
     grpc_DialContext E (retryDial ("unix:" +:+ socketPath E NewGrpcPlugin))
       = inr t →
     kubelet_Register E k (registerRequest NewGrpcPlugin) = None →
     (Start E st).1 = Done None ∧
     devices (nf (Start E st).2) = upsert_all ds ∅ ∧
     (ds = [] → devices (nf (Start E st).2) = ∅)) ∧
  (∀ e, (cleanup E st).1 = Done (Some e) →
        Start E st =
          (Done (Some (Errorf ("failed to cleanup: " +:+ Error e))),
           (cleanup E st).2)) ∧
  (∀ e, (cleanup E st).1 = Done None →
        (GetDevices E (cleanup E st).2).1 = Done (Some e) →
        Start E st =
          (Done (Some (Errorf ("failed to get devices: " +:+ Error e))),
           (GetDevices E (cleanup E st).2).2)) ∧
  (∀ e, (cleanup E st).1 = Done None →
        (GetDevices E (cleanup E st).2).1 = Done None →
        (RegisterDevicePlugin E (GetDevices E (cleanup E st).2).2).1
          = Done (Some e) →
        Start E st =
          (Done (Some (Errorf
             ("failed to register the device plugin: " +:+ Error e))),
           (RegisterDevicePlugin E (GetDevices E (cleanup E st).2).2).2)).
Proof.
  split_and!.
  - intros e He Hne. rewrite cleanup_run. simpl. by rewrite He, Hne.
  - intros vc ds lis k t Hnf Hc Hvd Hv Hl Hk Ht Hr.
    rewrite Start_steps.
    pose proof (cleanup_frame E st) as Hf. rewrite Hnf in Hf.
    destruct (cleanup E st) as [r st1]. simpl in Hc, Hf. subst r.
    assert (∃ tr, GetDevices E st1 =
              (Done None,
               {| nf := set_devices (upsert_all ds ∅)
                          (set_client (Some (NewDeviceServiceClient vc))
                             (set_conn (Some vc) NewGrpcPlugin));
                  trace := tr |})) as [tr HG].
    { eexists. unfold GetDevices. unfold mbind at 1, M_bind at 1.
      rewrite (ensureConnected_dial E st1 vc); [|by rewrite Hf|done].
      msimpl. rewrite Hv. simpl. rewrite storeDevices_run. simpl.
      by rewrite Hf. }
    rewrite HG.
    set (st2 := {| nf := _; trace := tr |}).
    destruct (RegisterDevicePlugin_ok E st2 lis k t) as (HR & Hd & _); try done.
    destruct (RegisterDevicePlugin E st2) as [r st3]. simpl in *. subst r.
    split_and!; [done..|]. intros ->. done.
  - intros e He. rewrite Start_steps.
    destruct (cleanup E st) as [r st1]. simpl in He. by subst r.
  - intros e Hc He. rewrite Start_steps.
    destruct (cleanup E st) as [r st1]. simpl in *. subst r.
    destruct (GetDevices E st1) as [r st2]. simpl in He. by subst r.
  - intros e Hc Hg He. rewrite Start_steps.
    destruct (cleanup E st) as [r st1]. simpl in *. subst r.
    destruct (GetDevices E st1) as [r st2]. simpl in *. subst r.
    destruct (RegisterDevicePlugin E st2) as [r st3]. simpl in He. by subst r.
Qed.

Lemma Start_startup_witness :
  (cleanup (env_up []) boot).1 = Done None ∧
  (Start (env_up []) boot).1 = Done None ∧
  devices (nf (Start (env_up []) boot).2) = ∅.
Proof.
  pose proof (Start_startup (env_up []) boot) as (Hc & Hs & _).
  split.
  - apply (Hc (no_such_file (socketPath (env_up []) NewGrpcPlugin)));
      reflexivity.
  - destruct (Hs {| target := "/var/run/dpu-daemon/vendor-plugin/vendor-plugin.sock" |}
                 []
                 {| lis_addr := "/var/lib/kubelet/device-plugins/sriovNet.sock" |}
                 {| target := "unix:/var/lib/kubelet/device-plugins/kubelet.sock" |}
                 {| target := "unix:/var/lib/kubelet/device-plugins/sriovNet.sock" |})
      as (Hok & _ & Hempty); try reflexivity.
    split; [exact Hok | by apply Hempty].
Defined.

(** ** The self-test connection *)

(** What the source settles about the self-test: one blocking dial, under
    a deadline of five seconds, with the retry policy of forty attempts,
    a backoff from one to sixteen seconds doubling each time, for the
    status UNAVAILABLE only; the schedule itself and the deadline are
    enforced by the gRPC runtime. *)
Lemma retryDial_budget (endpoint : string) :
  dial_timeout (retryDial endpoint) = Some 5%Z ∧
  WithBlock (retryDial endpoint) = true ∧
  WithDefaultServiceConfig (retryDial endpoint) =
    Some {| waitForReady := true;
            retryPolicy := {| MaxAttempts := 40;
                              InitialBackoff := 1;
                              MaxBackoff := 16;
                              BackoffMultiplier := 2;
                              RetryableStatusCodes := ["UNAVAILABLE"] |} |}.
Proof. done. Qed.

(** A dial that fails is logged and handed to the caller as it is. *)
Lemma connectWithRetry_refused (E : Env) (endpoint : string) (st : State)
    (err : error) :
  grpc_DialContext E (retryDial endpoint) = inl err →
  connectWithRetry E endpoint st =
    (Done (inl err),
     {| nf := nf st;
        trace := trace st ++
          [Dial (retryDial endpoint) (inl err);
           LogError err "Failed to establish connection with retry"
             [("endpoint", endpoint)]] |}).
Proof. intros Hd. rewrite connectWithRetry_run. by rewrite Hd. Qed.

(** * Further properties of the code *)

(** ** The health check, from any registry *)

(** X1.  From any registry, [changed] reports a change exactly when some
    record is not Healthy; afterwards every record is Healthy, the
    registry has the same identities, each record has kept its [ID], and
    nothing else of the plugin and nothing of the trace has changed. *)
Theorem changed_heals (st : State) :
  (changed st).1 = Done (bool_decide (¬ all_healthy (devices (nf st)))) ∧
  all_healthy (devices (nf (changed st).2)) ∧
  dom (devices (nf (changed st).2)) = dom (devices (nf st)) ∧
  (∀ k, devices (nf (changed st).2) !! k =
        (λ d, {| ID := ID d; Health := Healthy |}) <$> devices (nf st) !! k) ∧
  socketFile (nf (changed st).2) = socketFile (nf st) ∧
  grpcServer (nf (changed st).2) = grpcServer (nf st) ∧
  client (nf (changed st).2) = client (nf st) ∧
  conn (nf (changed st).2) = conn (nf st) ∧
  trace (changed st).2 = trace st.
Proof.
  rewrite changed_run. simpl. split_and!; try done.
  - apply heal_all_healthy.
  - apply dom_fmap_L.
  - intros k. by rewrite lookup_fmap.
Qed.

(** X2.  A second health check right after a first one reports no change
    and leaves the state as the first one left it. *)
Theorem changed_twice (st : State) :
  changed (changed st).2 = (Done false, (changed st).2).
Proof.
  apply changed_quiet. rewrite changed_run. simpl. apply heal_all_healthy.
Qed.

(** ** The inventory streamer, from any registry *)

(** X3.  A watch loop started on a registry with a record that is not
    Healthy, on a stream that accepts its pushes, pushes twice: the
    registry as it was, then, after the first health check has set every
    record to Healthy, the registry again; from then on it only sleeps. *)
Theorem ListAndWatch_pushes_twice (stream : ListAndWatchServer) (st : State)
    (fuel : nat) :
  let st1 := {| nf := healed (nf st);
                trace := trace st ++
                  [push_log st; StreamSend (push_of st) None; Sleep 5] |} in
  ¬ all_healthy (devices (nf st)) →
  Send stream (trace st ++ [push_log st]) (push_of st) = None →
  Send stream (trace st1 ++ [push_log st1]) (push_of st1) = None →
  ListAndWatch stream (S (S fuel)) st =
    (Done (Watching false),
     {| nf := healed (nf st);
        trace := trace st1 ++ [push_log st1; StreamSend (push_of st1) None]
                   ++ replicate (S fuel) (Sleep 5) |}).
Proof.
  intros st1 Hsick Hs Hs1. unfold ListAndWatch.
  rewrite (ListAndWatch_from_pushed stream (S fuel) st Hs).
  rewrite bool_decide_eq_true_2 by done.
  fold (healed (nf st)). fold st1.
  assert (all_healthy (devices (nf st1))) as Hh by apply heal_all_healthy.
  rewrite (ListAndWatch_from_pushed stream fuel st1 Hs1).
  rewrite heal_id, set_devices_id by done.
  rewrite bool_decide_eq_false_2 by auto.
  rewrite ListAndWatch_from_clean by done. simpl.
  by rewrite <- !app_assoc.
Qed.

Lemma ListAndWatch_pushes_twice_witness :
  let st1 := {| nf := healed (nf state_AB);
                trace := [push_log state_AB;
                          StreamSend (push_of state_AB) None; Sleep 5] |} in
  ListAndWatch stream_open 3 state_AB =
    (Done (Watching false),
     {| nf := healed (nf state_AB);
        trace := trace st1 ++ [push_log st1; StreamSend (push_of st1) None]
                   ++ [Sleep 5; Sleep 5] |}).
Proof.
  intros st1.
  apply (ListAndWatch_pushes_twice stream_open state_AB 1).
  - intros Hh.
    pose proof (Hh "B" {| ID := "B"; Health := Unhealthy |} eq_refl) as HB.
    discriminate HB.
  - reflexivity.
  - reflexivity.
Defined.


(** ** Discovery: failures and repetition *)

(** [GetDevices] on a plugin that holds a client: no dial, one call. *)
Lemma GetDevices_connected (E : Env) (st : State) (c : DeviceServiceClient) :
  client (nf st) = Some c →
  GetDevices E st =
    match vendor_GetDevices E c with
    | inl e =>
        (Done (Some (Errorf
           ("failed to handle GetDevices request: " +:+ Error e))),
         {| nf := nf st;
            trace := trace st ++ [RpcGetDevices c (inl e)] |})
    | inr ds =>
        (Done None,
         {| nf := set_devices (upsert_all ds (devices (nf st))) (nf st);
            trace := trace st ++ RpcGetDevices c (inr ds) :: found_log ds |})
    end.
Proof.
  intros Hc. unfold GetDevices. unfold mbind at 1, M_bind at 1.
  rewrite (ensureConnected_set E st c Hc). msimpl. rewrite Hc.
  destruct (vendor_GetDevices E c) as [e|ds]; simpl; [done|].
  rewrite storeDevices_run. simpl. by rewrite <- app_assoc.
Qed.

Lemma upsert_all_twice (ds : list pb.Device)
    (devs : gmap string pluginapi.Device) :
  upsert_all ds (upsert_all ds devs) = upsert_all ds devs.
Proof.
  apply map_eq. intros k. rewrite !upsert_all_lookup. by case_decide.
Qed.

(** X5.  When the vendor service cannot be dialled, [GetDevices] fails
    with the chain of contexts down to the dial error, makes no
    enumeration call and changes nothing of the plugin: no client is
    stored, so the next call dials again. *)
Theorem GetDevices_vendor_unreachable (E : Env) (st : State) (e : error) :
  client (nf st) = None →
  grpc_DialContext E (vendorDial E) = inl e →
  GetDevices E st =
    (Done (Some (Errorf
       ("failed to ensure connection to plugin: " +:+
        "failed to connect to vendor plugin: " +:+ Error e))),
     {| nf := nf st; trace := trace st ++ [Dial (vendorDial E) (inl e)] |}) ∧
  ∀ E', ∃ rest,
    trace (GetDevices E' (GetDevices E st).2).2 =
      trace (GetDevices E st).2 ++
        Dial (vendorDial E') (grpc_DialContext E' (vendorDial E')) :: rest.
Proof.
  intros Hc Hd.
  assert (GetDevices E st =
    (Done (Some (Errorf
       ("failed to ensure connection to plugin: " +:+
        "failed to connect to vendor plugin: " +:+ Error e))),
     {| nf := nf st; trace := trace st ++ [Dial (vendorDial E) (inl e)] |}))
    as Hrun.
  { unfold GetDevices. unfold mbind at 1, M_bind at 1.
    by rewrite (ensureConnected_refused E st e Hc Hd). }
  split; [done|]. intros E'. rewrite Hrun. simpl.
  set (st' := {| nf := nf st; trace := _ |}).
  assert (client (nf st') = None) as Hc' by done.
  unfold GetDevices. unfold mbind at 1, M_bind at 1.
  destruct (grpc_DialContext E' (vendorDial E')) as [e'|c] eqn:Hd'.
  - rewrite (ensureConnected_refused E' st' e' Hc' Hd'). simpl. by exists [].
  - rewrite (ensureConnected_dial E' st' c Hc' Hd'). msimpl.
    destruct (vendor_GetDevices E' (NewDeviceServiceClient c)) as [e'|ds];
      simpl.
    + eexists. by rewrite <- !app_assoc.
    + rewrite storeDevices_run. simpl. eexists. by rewrite <- !app_assoc.
Qed.

Lemma GetDevices_vendor_unreachable_witness :
  let E := env_faulty (λ p, bool_decide (p = Vendor)) false false false [] in
  GetDevices E boot =
    (Done (Some (Errorf
       "failed to ensure connection to plugin: failed to connect to vendor plugin: connection refused")),
     {| nf := NewGrpcPlugin; trace := [Dial (vendorDial E) (inl refused)] |}) ∧
  ∀ E', ∃ rest,
    trace (GetDevices E' (GetDevices E boot).2).2 =
      trace (GetDevices E boot).2 ++
        Dial (vendorDial E') (grpc_DialContext E' (vendorDial E')) :: rest.
Proof.
  intros E.
  apply (GetDevices_vendor_unreachable E boot refused); reflexivity.
Defined.

(** X6.  When the vendor service is reached but its enumeration call
    fails, [GetDevices] fails with that error in context and leaves the
    registry as it was, but keeps the connection and the client it has
    just made: the next call does not dial. *)
Theorem GetDevices_call_failed (E : Env) (st : State) (vc : ClientConn)
    (e : error) :
  client (nf st) = None →
  grpc_DialContext E (vendorDial E) = inr vc →
  vendor_GetDevices E (NewDeviceServiceClient vc) = inl e →
  GetDevices E st =
    (Done (Some (Errorf ("failed to handle GetDevices request: " +:+ Error e))),
     {| nf := set_client (Some (NewDeviceServiceClient vc))
                (set_conn (Some vc) (nf st));
        trace := trace st ++
          [Dial (vendorDial E) (inr vc);
           RpcGetDevices (NewDeviceServiceClient vc) (inl e)] |}) ∧
  devices (nf (GetDevices E st).2) = devices (nf st) ∧
  ∀ E', ∃ rest,
    trace (GetDevices E' (GetDevices E st).2).2 =
      trace (GetDevices E st).2 ++
        RpcGetDevices (NewDeviceServiceClient vc)
          (vendor_GetDevices E' (NewDeviceServiceClient vc)) :: rest ∧
    Forall is_log rest.
Proof.
  intros Hc Hd Hv.
  assert (GetDevices E st =
    (Done (Some (Errorf ("failed to handle GetDevices request: " +:+ Error e))),
     {| nf := set_client (Some (NewDeviceServiceClient vc))
                (set_conn (Some vc) (nf st));
        trace := trace st ++
          [Dial (vendorDial E) (inr vc);
           RpcGetDevices (NewDeviceServiceClient vc) (inl e)] |})) as Hrun.
  { unfold GetDevices. unfold mbind at 1, M_bind at 1.
    rewrite (ensureConnected_dial E st vc Hc Hd). msimpl. rewrite Hv. simpl.
    by rewrite <- app_assoc. }
  rewrite Hrun. split_and!; [done..|]. intros E'. simpl.
  rewrite (GetDevices_connected E' _ (NewDeviceServiceClient vc)) by done.
  destruct (vendor_GetDevices E' (NewDeviceServiceClient vc)) as [e'|ds]; simpl.
  - exists []. split; [done|constructor].
  - exists (found_log ds). split; [done|].
    unfold found_log. apply Forall_fmap, Forall_forall. by intros d _.
Qed.

Lemma GetDevices_call_failed_witness :
  let E := env_faulty (λ _, false) false true false [] in
  let vc := {| target := "/var/run/dpu-daemon/vendor-plugin/vendor-plugin.sock" |} in
  GetDevices E boot =
    (Done (Some (Errorf "failed to handle GetDevices request: connection refused")),
     {| nf := set_client (Some (NewDeviceServiceClient vc))
                (set_conn (Some vc) NewGrpcPlugin);
        trace := [Dial (vendorDial E) (inr vc);
                  RpcGetDevices (NewDeviceServiceClient vc) (inl refused)] |}) ∧
  devices (nf (GetDevices E boot).2) = devices (nf boot) ∧
  ∀ E', ∃ rest,
    trace (GetDevices E' (GetDevices E boot).2).2 =
      trace (GetDevices E boot).2 ++
        RpcGetDevices (NewDeviceServiceClient vc)
          (vendor_GetDevices E' (NewDeviceServiceClient vc)) :: rest ∧
    Forall is_log rest.
Proof.
  intros E vc.
  apply (GetDevices_call_failed E boot vc refused); reflexivity.
Defined.

(** X7.  A refresh that succeeded can be repeated: with the same answer
    of the vendor the second [GetDevices] succeeds without dialling and
    leaves the registry as the first one made it. *)
Theorem GetDevices_again (E : Env) (st : State) :
  (GetDevices E st).1 = Done None →
  (GetDevices E (GetDevices E st).2).1 = Done None ∧
  devices (nf (GetDevices E (GetDevices E st).2).2) =
    devices (nf (GetDevices E st).2) ∧
  ∃ c ds,
    trace (GetDevices E (GetDevices E st).2).2 =
      trace (GetDevices E st).2 ++ RpcGetDevices c (inr ds) :: found_log ds.
Proof.
  intros Hok.
  destruct (GetDevices_cases E st)
    as [(e & He & _)|(c & ds & _ & Hc & Hv & Hd)].
  { rewrite Hok in He. discriminate He. }
  rewrite (GetDevices_connected E _ c Hc), Hv. simpl.
  split_and!; [done| |by exists c, ds].
  by rewrite Hd, upsert_all_twice.
Qed.

Lemma GetDevices_again_witness :
  let E := env_up [pb.mkDevice "A"; pb.mkDevice "B"] in
  (GetDevices E (GetDevices E boot).2).1 = Done None ∧
  devices (nf (GetDevices E (GetDevices E boot).2).2) =
    devices (nf (GetDevices E boot).2) ∧
  ∃ c ds,
    trace (GetDevices E (GetDevices E boot).2).2 =
      trace (GetDevices E boot).2 ++ RpcGetDevices c (inr ds) :: found_log ds.
Proof.
  intros E. apply (GetDevices_again E boot). reflexivity.
Defined.

(** X8.  [GetDevices] never removes a record, whether it succeeds or
    fails: every identity of the registry is still there afterwards, with
    the record it had or with a Healthy record of that identity. *)
Theorem GetDevices_never_forgets (E : Env) (st : State) :
  dom (devices (nf st)) ⊆ dom (devices (nf (GetDevices E st).2)) ∧
  ∀ k d, devices (nf st) !! k = Some d →
         devices (nf (GetDevices E st).2) !! k = Some d ∨
         devices (nf (GetDevices E st).2) !! k =
           Some {| ID := k; Health := Healthy |}.
Proof.
  assert (∀ k d, devices (nf st) !! k = Some d →
            devices (nf (GetDevices E st).2) !! k = Some d ∨
            devices (nf (GetDevices E st).2) !! k =
              Some {| ID := k; Health := Healthy |}) as Hkeep.
  { intros k d Hk.
    destruct (GetDevices_cases E st)
      as [(e & _ & ->)|(c & ds & _ & _ & _ & ->)]; [by left|].
    rewrite upsert_all_lookup. case_decide; [by right | by left]. }
  split; [|done].
  intros k [d Hk]%elem_of_dom. apply elem_of_dom.
  destruct (Hkeep k d Hk) as [->| ->]; eauto.
Qed.

(** ** Properties of the plugin state that every method maintains *)

Section Holds.

Context {P : nfResources → Prop}.

Lemma holds_ret {A} (a : A) : holds P (mret a).
Proof. by intros st. Qed.

Lemma holds_bind {A B} (m : M A) (f : A → M B) :
  holds P m → (∀ a, holds P (f a)) → holds P (m ≫= f).
Proof.
  intros Hm Hf st HP. specialize (Hm st HP). msimpl.
  destruct (m st) as [[a|r] st1]; simpl in *; [by apply Hf | done].
Qed.

Lemma holds_emit (e : event) : holds P (emit e).
Proof. by intros st. Qed.

Lemma holds_get_nf : holds P get_nf.
Proof. by intros st. Qed.

Lemma holds_get_trace : holds P get_trace.
Proof. by intros st. Qed.

Lemma holds_panic {A} (r : string) : holds P (panic (A := A) r).
Proof. by intros st. Qed.

Lemma holds_modify (f : nfResources → nfResources) :
  (∀ n, P n → P (f n)) → holds P (modify_nf f).
Proof. intros Hf st HP. simpl. by apply Hf. Qed.

(** The property does not depend on the registry or on the server. *)
Hypothesis P_devices : ∀ n d, P n → P (set_devices d n).
Hypothesis P_server : ∀ n s, P n → P (set_grpcServer s n).

Ltac holds_step :=
  lazymatch goal with
  | |- holds _ (mbind _ _) => apply holds_bind; [|intros ?]
  | |- holds _ (mret _) => apply holds_ret
  | |- holds _ (emit _) => apply holds_emit
  | |- holds _ get_nf => apply holds_get_nf
  | |- holds _ get_trace => apply holds_get_trace
  | |- holds _ (panic _) => apply holds_panic
  | |- holds _ (modify_nf (set_grpcServer _)) =>
      apply holds_modify; intros ??; by apply P_server
  | |- holds _ (modify_nf _) =>
      apply holds_modify; intros ??; by apply P_devices
  | |- holds _ (match ?x with _ => _ end) => destruct x
  end.

Lemma holds_Allocate rqt : holds P (Allocate rqt).
Proof. intros st HP. unfold Allocate. by rewrite allocateContainers_frame. Qed.

Lemma holds_changed : holds P changed.
Proof. intros st HP. rewrite changed_run. simpl. by apply P_devices. Qed.

Lemma holds_sendDevices stream : holds P (sendDevices stream).
Proof. unfold sendDevices. repeat holds_step. Qed.

Lemma holds_connectWithRetry E endpoint : holds P (connectWithRetry E endpoint).
Proof. unfold connectWithRetry. repeat holds_step. Qed.

Lemma holds_cleanup E : holds P (cleanup E).
Proof. unfold cleanup. repeat holds_step. Qed.

Lemma holds_RegisterDevicePlugin E : holds P (RegisterDevicePlugin E).
Proof.
  unfold RegisterDevicePlugin.
  repeat first [apply holds_connectWithRetry | holds_step].
Qed.

Lemma holds_storeDevices ds : holds P (storeDevices ds).
Proof. induction ds as [|d ds IH]; simpl; repeat first [exact IH | holds_step]. Qed.

Lemma holds_GetDevices E : holds P (ensureConnected E) → holds P (GetDevices E).
Proof.
  intros He. unfold GetDevices.
  repeat first [exact He | apply holds_storeDevices | holds_step].
Qed.

Lemma holds_ListAndWatch_from stream fuel c :
  holds P (ListAndWatch_from stream fuel c).
Proof.
  revert c. induction fuel as [|fuel IH]; intros c; simpl.
  - apply holds_ret.
  - apply holds_bind.
    + destruct c; [apply holds_sendDevices | apply holds_ret].
    + intros [e|]; [apply holds_ret|].
      apply holds_bind; [apply holds_emit|intros _].
      apply holds_bind; [apply holds_changed|]. intros c'. apply IH.
Qed.

Lemma holds_Start E : holds P (ensureConnected E) → holds P (Start E).
Proof.
  intros He. unfold Start.
  repeat first [apply holds_cleanup | apply holds_RegisterDevicePlugin
               | by apply holds_GetDevices | holds_step].
Qed.

End Holds.

(** A stored client makes [ensureConnected] a no-op, so it keeps whatever
    holds of the plugin state. *)
Lemma holds_ensureConnected_set (E : Env) (P : nfResources → Prop) :
  (∀ n, P n → is_Some (client n)) → holds P (ensureConnected E).
Proof.
  intros HP st Hst. destruct (HP _ Hst) as [c Hc].
  by rewrite (ensureConnected_set E st c Hc).
Qed.

Lemma holds_ensureConnected_linked (E : Env) : holds linked (ensureConnected E).
Proof.
  intros st Hl. destruct (client (nf st)) as [c|] eqn:Hc.
  - by rewrite (ensureConnected_set E st c Hc).
  - destruct (grpc_DialContext E (vendorDial E)) as [e|vc] eqn:Hd.
    + by rewrite (ensureConnected_refused E st e Hc Hd).
    + by rewrite (ensureConnected_dial E st vc Hc Hd).
Qed.

(** X9.  Once a client is stored, no method of the plugin replaces or
    clears it, nor the stored connection: the vendor connection is made
    at most once in the life of the process. *)
Theorem client_never_replaced (c : DeviceServiceClient)
    (k : option ClientConn) (st : State) :
  client (nf st) = Some c →
  conn (nf st) = k →
  let kept := λ st' : State, client (nf st') = Some c ∧ conn (nf st') = k in
  (∀ E, kept (ensureConnected E st).2) ∧
  (∀ E, kept (GetDevices E st).2) ∧
  kept (changed st).2 ∧
  (∀ rqt, kept (Allocate rqt st).2) ∧
  (∀ stream fuel, kept (ListAndWatch stream fuel st).2) ∧
  (∀ E, kept (RegisterDevicePlugin E st).2) ∧
  (∀ E, kept (Start E st).2).
Proof.
  intros Hc Hk kept.
  set (P := λ n : nfResources, client n = Some c ∧ conn n = k).
  assert (P (nf st)) as HP by done.
  assert (∀ n d, P n → P (set_devices d n)) as Hd by (by intros [] d).
  assert (∀ n s, P n → P (set_grpcServer s n)) as Hs by (by intros [] s).
  assert (∀ E, holds P (ensureConnected E)) as He.
  { intros E. apply holds_ensureConnected_set. intros n [Hn _]. eauto. }
  split_and!.
  - intros E. exact (He E st HP).
  - intros E. assert (holds P (GetDevices E)) as H
      by (apply holds_GetDevices; auto).
    exact (H st HP).
  - assert (holds P changed) as H by (apply holds_changed; auto).
    exact (H st HP).
  - intros rqt. exact (holds_Allocate (P := P) rqt st HP).
  - intros stream fuel.
    assert (holds P (ListAndWatch_from stream fuel true)) as H
      by (apply holds_ListAndWatch_from; auto).
    exact (H st HP).
  - intros E. assert (holds P (RegisterDevicePlugin E)) as H
      by (apply holds_RegisterDevicePlugin; auto).
    exact (H st HP).
  - intros E. assert (holds P (Start E)) as H
      by (apply holds_Start; auto).
    exact (H st HP).
Qed.

Lemma client_never_replaced_witness :
  let vc := {| target := "/var/run/dpu-daemon/vendor-plugin/vendor-plugin.sock" |} in
  let st := (ensureConnected (env_up []) boot).2 in
  let kept := λ st' : State,
    client (nf st') = Some (NewDeviceServiceClient vc) ∧
    conn (nf st') = Some vc in
  (∀ E, kept (ensureConnected E st).2) ∧
  (∀ E, kept (GetDevices E st).2) ∧
  kept (changed st).2 ∧
  (∀ rqt, kept (Allocate rqt st).2) ∧
  (∀ stream fuel, kept (ListAndWatch stream fuel st).2) ∧
  (∀ E, kept (RegisterDevicePlugin E st).2) ∧
  (∀ E, kept (Start E st).2).
Proof.
  intros vc st.
  apply (client_never_replaced (NewDeviceServiceClient vc) (Some vc) st);
    reflexivity.
Defined.

(** X10.  In every state a process can reach, the connection and the
    client are stored together, and the client is the stub over the
    stored connection. *)
Theorem reachable_linked (st : State) :
  reachable st → client (nf st) = NewDeviceServiceClient <$> conn (nf st).
Proof.
  assert (∀ n d, linked n → linked (set_devices d n)) as Hd by (by intros []).
  assert (∀ n s, linked n → linked (set_grpcServer s n)) as Hs by (by intros []).
  pose proof holds_ensureConnected_linked as He.
  induction 1 as [|E st _ IH|st _ IH|rqt st _ IH|stream fuel st _ IH|E st _ IH].
  - done.
  - assert (holds linked (GetDevices E)) as H
      by (apply holds_GetDevices; auto).
    exact (H st IH).
  - assert (holds linked changed) as H by (apply holds_changed; auto).
    exact (H st IH).
  - exact (holds_Allocate (P := linked) rqt st IH).
  - assert (holds linked (ListAndWatch_from stream fuel true)) as H
      by (apply holds_ListAndWatch_from; auto).
    exact (H st IH).
  - assert (holds linked (Start E)) as H by (apply holds_Start; auto).
    exact (H st IH).
Qed.

Lemma reachable_linked_witness :
  let st := (GetDevices (env_up [pb.mkDevice "A"]) boot).2 in
  client (nf st) = NewDeviceServiceClient <$> conn (nf st).
Proof.
  intros st. apply (reachable_linked st). apply reach_GetDevices, reach_boot.
Defined.

(** ** Registration with the orchestrator, path by path *)

Section RegisterPaths.

Variable E : Env.
Variable st : State.

(** The path of the plugin's socket, and its first log line. *)
Let path : string := socketPath E (nf st).

Let starting : event :=
  LogInfo "Starting Device Plugin server at:" "pluginEndpoint" (LStr path).

(** X11.  When the listener is bound, the orchestrator is reached, the
    self-test dial succeeds and the registration is accepted,
    [RegisterDevicePlugin] does, in this order: listen, dial the
    orchestrator, start serving, dial its own socket, close that test
    connection, register the socket file under the resource name, close
    the orchestrator connection; it leaves a serving server and changes
    nothing else of the plugin. *)
Theorem RegisterDevicePlugin_order (lis : Listener) (k t : ClientConn) :
  net_Listen E path = inr lis →
  grpc_DialContext E (kubeletDial E) = inr k →
  grpc_DialContext E (retryDial ("unix:" +:+ path)) = inr t →
  kubelet_Register E k (registerRequest (nf st)) = None →
  RegisterDevicePlugin E st =
    (Done None,
     {| nf := set_grpcServer (Some server_serving) (nf st);
        trace := trace st ++
          [starting;
           NetListen path (inr lis);
           Dial (kubeletDial E) (inr k);
           GoServe lis;
           Dial (retryDial ("unix:" +:+ path)) (inr t);
           LogInfo "Device plugin endpoint started serving:" "resourceName"
             (LStr "openshift.io/dpu");
           ConnClose t;
           RpcRegister k {| rq_Version := "v1beta1";
                            Endpoint := socketFile (nf st);
                            ResourceName := "openshift.io/dpu" |} None;
           LogInfo "Device plugin registered with Kubelet" "resourceName"
             (LStr "openshift.io/dpu");
           ConnClose k] |}).
Proof.
  intros Hl Hk Ht Hr. unfold RegisterDevicePlugin. msimpl.
  fold path. rewrite Hl. simpl. rewrite Hk. simpl.
  rewrite connectWithRetry_run. simpl. rewrite Ht. simpl.
  rewrite Hr. simpl. rewrite <- !app_assoc. done.
Qed.

(** X12.  When the socket cannot be bound, [RegisterDevicePlugin] fails
    with the resource name and the error of the listener, before any
    server is created and before any dial. *)
Theorem RegisterDevicePlugin_listen_failed (e : error) :
  net_Listen E path = inl e →
  RegisterDevicePlugin E st =
    (Done (Some (Errorf
       ("resource openshift.io/dpu failed to listen to Device Plugin server: "
        +:+ Error e))),
     {| nf := nf st;
        trace := trace st ++ [starting; NetListen path (inl e)] |}).
Proof.
  intros Hl. unfold RegisterDevicePlugin. msimpl.
  fold path. rewrite Hl. simpl. rewrite <- !app_assoc. done.
Qed.

(** X13.  When the orchestrator cannot be dialled,
    [RegisterDevicePlugin] fails with the resource name and the dial
    error; the server has been created but is never started, and the
    bound listener is neither served nor closed. *)
Theorem RegisterDevicePlugin_kubelet_unreachable (lis : Listener) (e : error) :
  net_Listen E path = inr lis →
  grpc_DialContext E (kubeletDial E) = inl e →
  RegisterDevicePlugin E st =
    (Done (Some (Errorf
       ("resource openshift.io/dpu unable connect to Kubelet: " +:+ Error e))),
     {| nf := set_grpcServer (Some server_created) (nf st);
        trace := trace st ++
          [starting; NetListen path (inr lis);
           Dial (kubeletDial E) (inl e)] |}).
Proof.
  intros Hl Hk. unfold RegisterDevicePlugin. msimpl.
  fold path. rewrite Hl. simpl. rewrite Hk. simpl.
  rewrite <- !app_assoc. done.
Qed.

(** X14.  When the self-test dial fails, [RegisterDevicePlugin] fails
    with the resource name and the dial error, and never sends the
    registration; the orchestrator connection is closed, and the server,
    started before the test, is left serving. *)
Theorem RegisterDevicePlugin_selftest_failed (lis : Listener) (k : ClientConn)
    (e : error) :
  net_Listen E path = inr lis →
  grpc_DialContext E (kubeletDial E) = inr k →
  grpc_DialContext E (retryDial ("unix:" +:+ path)) = inl e →
  RegisterDevicePlugin E st =
    (Done (Some (Errorf
       ("resource openshift.io/dpu unable to establish test connection with gRPC server: "
        +:+ Error e))),
     {| nf := set_grpcServer (Some server_serving) (nf st);
        trace := trace st ++
          [starting; NetListen path (inr lis);
           Dial (kubeletDial E) (inr k);
           GoServe lis;
           Dial (retryDial ("unix:" +:+ path)) (inl e);
           LogError e "Failed to establish connection with retry"
             [("endpoint", "unix:" +:+ path)];
           ConnClose k] |}).
Proof.
  intros Hl Hk Ht. unfold RegisterDevicePlugin. msimpl.
  fold path. rewrite Hl. simpl. rewrite Hk. simpl.
  rewrite connectWithRetry_run. simpl. rewrite Ht. simpl.
  rewrite <- !app_assoc. done.
Qed.

(** The run of [RegisterDevicePlugin] when the registration is
    rejected. *)
Lemma RegisterDevicePlugin_rejected_run (lis : Listener) (k t : ClientConn)
    (e : error) :
  net_Listen E path = inr lis →
  grpc_DialContext E (kubeletDial E) = inr k →
  grpc_DialContext E (retryDial ("unix:" +:+ path)) = inr t →
  kubelet_Register E k (registerRequest (nf st)) = Some e →
  RegisterDevicePlugin E st =
    (Done (Some (Errorf
       ("unable to register resource openshift.io/dpu with Kubelet: "
        +:+ Error e))),
     {| nf := set_grpcServer (Some server_serving) (nf st);
        trace := trace st ++
          [starting; NetListen path (inr lis);
           Dial (kubeletDial E) (inr k);
           GoServe lis;
           Dial (retryDial ("unix:" +:+ path)) (inr t);
           LogInfo "Device plugin endpoint started serving:" "resourceName"
             (LStr "openshift.io/dpu");
           ConnClose t;
           RpcRegister k (registerRequest (nf st)) (Some e);
           ConnClose k] |}).
Proof.
  intros Hl Hk Ht Hr. unfold RegisterDevicePlugin. msimpl.
  fold path. rewrite Hl. simpl. rewrite Hk. simpl.
  rewrite connectWithRetry_run. simpl. rewrite Ht. simpl.
  rewrite Hr. simpl. rewrite <- !app_assoc. done.
Qed.

(** X15.  When the orchestrator rejects the registration,
    [RegisterDevicePlugin] fails with the resource name and the error of
    the call; both connections have been closed, and the server is left
    serving. *)
Theorem RegisterDevicePlugin_rejected (lis : Listener) (k t : ClientConn)
    (e : error) :
  net_Listen E path = inr lis →
  grpc_DialContext E (kubeletDial E) = inr k →
  grpc_DialContext E (retryDial ("unix:" +:+ path)) = inr t →
  kubelet_Register E k (registerRequest (nf st)) = Some e →
  RegisterDevicePlugin E st =
    (Done (Some (Errorf
       ("unable to register resource openshift.io/dpu with Kubelet: "
        +:+ Error e))),
     {| nf := set_grpcServer (Some server_serving) (nf st);
        trace := trace st ++
          [starting; NetListen path (inr lis);
           Dial (kubeletDial E) (inr k);
           GoServe lis;
           Dial (retryDial ("unix:" +:+ path)) (inr t);
           LogInfo "Device plugin endpoint started serving:" "resourceName"
             (LStr "openshift.io/dpu");
           ConnClose t;
           RpcRegister k (registerRequest (nf st)) (Some e);
           ConnClose k] |}).
Proof. apply RegisterDevicePlugin_rejected_run. Qed.

End RegisterPaths.

Lemma RegisterDevicePlugin_order_witness :
  (RegisterDevicePlugin (env_up []) boot).1 = Done None ∧
  grpcServer (nf (RegisterDevicePlugin (env_up []) boot).2) =
    Some server_serving.
Proof.
  pose proof (RegisterDevicePlugin_order (env_up []) boot
    {| lis_addr := "/var/lib/kubelet/device-plugins/sriovNet.sock" |}
    {| target := "unix:/var/lib/kubelet/device-plugins/kubelet.sock" |}
    {| target := "unix:/var/lib/kubelet/device-plugins/sriovNet.sock" |}
    eq_refl eq_refl eq_refl eq_refl) as H.
  split; [exact (f_equal fst H) | exact (f_equal (λ r, grpcServer (nf r.2)) H)].
Defined.

Lemma RegisterDevicePlugin_listen_failed_witness :
  (RegisterDevicePlugin (env_faulty (λ _, false) true false false []) boot).1 =
    Done (Some (Errorf
      "resource openshift.io/dpu failed to listen to Device Plugin server: connection refused")) ∧
  grpcServer
    (nf (RegisterDevicePlugin
           (env_faulty (λ _, false) true false false []) boot).2) = None.
Proof.
  pose proof (RegisterDevicePlugin_listen_failed
    (env_faulty (λ _, false) true false false []) boot refused eq_refl) as H.
  split; [exact (f_equal fst H) | exact (f_equal (λ r, grpcServer (nf r.2)) H)].
Defined.

Lemma RegisterDevicePlugin_kubelet_unreachable_witness :
  let E := env_faulty (λ p, bool_decide (p = Kubelet)) false false false [] in
  (RegisterDevicePlugin E boot).1 =
    Done (Some (Errorf
      "resource openshift.io/dpu unable connect to Kubelet: connection refused")) ∧
  grpcServer (nf (RegisterDevicePlugin E boot).2) = Some server_created.
Proof.
  intros E.
  pose proof (RegisterDevicePlugin_kubelet_unreachable E boot
    {| lis_addr := "/var/lib/kubelet/device-plugins/sriovNet.sock" |}
    refused eq_refl eq_refl) as H.
  split; [exact (f_equal fst H) | exact (f_equal (λ r, grpcServer (nf r.2)) H)].
Defined.

Lemma RegisterDevicePlugin_selftest_failed_witness :
  let E := env_faulty (λ p, bool_decide (p = SelfTest)) false false false [] in
  (RegisterDevicePlugin E boot).1 =
    Done (Some (Errorf
      "resource openshift.io/dpu unable to establish test connection with gRPC server: connection refused")) ∧
  grpcServer (nf (RegisterDevicePlugin E boot).2) = Some server_serving.
Proof.
  intros E.
  pose proof (RegisterDevicePlugin_selftest_failed E boot
    {| lis_addr := "/var/lib/kubelet/device-plugins/sriovNet.sock" |}
    {| target := "unix:/var/lib/kubelet/device-plugins/kubelet.sock" |}
    refused eq_refl eq_refl eq_refl) as H.
  split; [exact (f_equal fst H) | exact (f_equal (λ r, grpcServer (nf r.2)) H)].
Defined.

Lemma RegisterDevicePlugin_rejected_witness :
  let E := env_faulty (λ _, false) false false true [] in
  (RegisterDevicePlugin E boot).1 =
    Done (Some (Errorf
      "unable to register resource openshift.io/dpu with Kubelet: connection refused")) ∧
  grpcServer (nf (RegisterDevicePlugin E boot).2) = Some server_serving.
Proof.
  intros E.
  pose proof (RegisterDevicePlugin_rejected E boot
    {| lis_addr := "/var/lib/kubelet/device-plugins/sriovNet.sock" |}
    {| target := "unix:/var/lib/kubelet/device-plugins/kubelet.sock" |}
    {| target := "unix:/var/lib/kubelet/device-plugins/sriovNet.sock" |}
    refused eq_refl eq_refl eq_refl eq_refl) as H.
  split; [exact (f_equal fst H) | exact (f_equal (λ r, grpcServer (nf r.2)) H)].
Defined.

(** ** Startup that stops on the way *)

(** X16.  On a plugin without a client, when cleanup passes and the
    vendor service cannot be dialled, [Start] fails with the whole chain
    of contexts down to the dial error, after the removal attempt and the
    dial and nothing else: no socket is bound, no server is created, and
    the plugin is as it was. *)
Theorem Start_vendor_unreachable (E : Env) (st : State) (e : error) :
  (cleanup E st).1 = Done None →
  client (nf st) = None →
  grpc_DialContext E (vendorDial E) = inl e →
  Start E st =
    (Done (Some (Errorf
       ("failed to get devices: " +:+
        "failed to ensure connection to plugin: " +:+
        "failed to connect to vendor plugin: " +:+ Error e))),
     {| nf := nf st;
        trace := trace st ++
          [OsRemove (socketPath E (nf st)) (os_Remove E (socketPath E (nf st)));
           Dial (vendorDial E) (inl e)] |}).
Proof.
  intros Hc Hcl Hd. rewrite Start_steps. rewrite cleanup_run in Hc |- *.
  simpl in Hc. injection Hc as Hc. rewrite Hc.
  unfold GetDevices. unfold mbind at 1, M_bind at 1.
  rewrite (ensureConnected_refused E _ e); [|done..].
  simpl. by rewrite <- app_assoc.
Qed.

Lemma Start_vendor_unreachable_witness :
  let E := env_faulty (λ p, bool_decide (p = Vendor)) false false false [] in
  (Start E boot).1 =
    Done (Some (Errorf
      "failed to get devices: failed to ensure connection to plugin: failed to connect to vendor plugin: connection refused")) ∧
  nf (Start E boot).2 = NewGrpcPlugin.
Proof.
  intros E.
  pose proof (Start_vendor_unreachable E boot refused eq_refl eq_refl eq_refl)
    as H.
  split; [exact (f_equal fst H) | exact (f_equal (λ r, nf r.2) H)].
Defined.

(** X17.  [Start] does not undo what it has done: when every step
    succeeds but the orchestrator rejects the registration, [Start]
    fails with the error of the call in its two contexts, and the plugin
    is left with the discovered devices in its registry, the vendor
    client stored and the server serving. *)
Theorem Start_no_rollback (E : Env) (st : State) (vc : ClientConn)
    (ds : list pb.Device) (lis : Listener) (k t : ClientConn) (e : error) :
  nf st = NewGrpcPlugin →
  (cleanup E st).1 = Done None →
  grpc_DialContext E (vendorDial E) = inr vc →
  vendor_GetDevices E (NewDeviceServiceClient vc) = inr ds →
  net_Listen E (socketPath E NewGrpcPlugin) = inr lis →
  grpc_DialContext E (kubeletDial E) = inr k →
  grpc_DialContext E (retryDial ("unix:" +:+ socketPath E NewGrpcPlugin))
    = inr t →
  kubelet_Register E k (registerRequest NewGrpcPlugin) = Some e →
  (Start E st).1 =
    Done (Some (Errorf
      ("failed to register the device plugin: " +:+
       "unable to register resource openshift.io/dpu with Kubelet: " +:+
       Error e))) ∧
  nf (Start E st).2 =
    {| socketFile := pluginEndpoint;
       devices := upsert_all ds ∅;
       grpcServer := Some server_serving;
       client := Some (NewDeviceServiceClient vc);
       conn := Some vc |}.
Proof.
  intros Hnf Hc Hvd Hv Hl Hk Ht Hr.
  rewrite Start_steps.
  pose proof (cleanup_frame E st) as Hf. rewrite Hnf in Hf.
  destruct (cleanup E st) as [r st1]. simpl in Hc, Hf. subst r.
  assert (∃ tr, GetDevices E st1 =
            (Done None,
             {| nf := set_devices (upsert_all ds ∅)
                        (set_client (Some (NewDeviceServiceClient vc))
                           (set_conn (Some vc) NewGrpcPlugin));
                trace := tr |})) as [tr HG].
  { eexists. unfold GetDevices. unfold mbind at 1, M_bind at 1.
    rewrite (ensureConnected_dial E st1 vc); [|by rewrite Hf|done].
    msimpl. rewrite Hv. simpl. rewrite storeDevices_run. simpl.
    by rewrite Hf. }
  rewrite HG.
  set (st2 := {| nf := _; trace := tr |}).
  rewrite (RegisterDevicePlugin_rejected_run E st2 lis k t e); done.
Qed.

Lemma Start_no_rollback_witness :
  let E := env_faulty (λ _, false) false false true [pb.mkDevice "A"] in
  (Start E boot).1 =
    Done (Some (Errorf
      "failed to register the device plugin: unable to register resource openshift.io/dpu with Kubelet: connection refused")) ∧
  nf (Start E boot).2 =
    {| socketFile := pluginEndpoint;
       devices := upsert_all [pb.mkDevice "A"] ∅;
       grpcServer := Some server_serving;
       client := Some (NewDeviceServiceClient
         {| target := "/var/run/dpu-daemon/vendor-plugin/vendor-plugin.sock" |});
       conn := Some
         {| target := "/var/run/dpu-daemon/vendor-plugin/vendor-plugin.sock" |} |}.
Proof.
  intros E.
  apply (Start_no_rollback E boot
    {| target := "/var/run/dpu-daemon/vendor-plugin/vendor-plugin.sock" |}
    [pb.mkDevice "A"]
    {| lis_addr := "/var/lib/kubelet/device-plugins/sriovNet.sock" |}
    {| target := "unix:/var/lib/kubelet/device-plugins/kubelet.sock" |}
    {| target := "unix:/var/lib/kubelet/device-plugins/sriovNet.sock" |}
    refused); reflexivity.
Defined.

(** ** What never panics *)

Section Returns.














End Returns.



(** ** The allocation handler: when it succeeds, what it answers, what it
    does *)

(** X19.  [Allocate] answers with a response exactly when every identity
    of the request is present in the registry with the status Healthy. *)
Theorem Allocate_succeeds_iff (rqt : AllocateRequest) (st : State) :
  (∃ resp, (Allocate rqt st).1 = Done (inr resp)) ↔
  Forall (healthy_in (devices (nf st))) (all_ids rqt).
Proof.
  split.
  - intros [resp Hres].
    destruct (decide (Forall (healthy_in (devices (nf st))) (all_ids rqt)))
      as [Hall|Hnot]; [done|].
    apply first_offender_split in Hnot
      as (good & bad & rest & Hsplit & Hgood & Hbad); [|apply _].
    unfold Allocate in Hres.
    rewrite (allocateContainers_offender _ good bad rest _ _ _ Hsplit Hgood Hbad)
      in Hres. discriminate Hres.
  - intros Hall. unfold Allocate.
    rewrite (allocateContainers_healthy _ _ _ _ Hall). eauto.
Qed.

Lemma join_ids_app (a b : list string) :
  join_ids (a ++ b) = join_ids a +:+ join_ids b.
Proof.
  induction a as [|x a IH]; [done|].
  change (x +:+ "," +:+ join_ids (a ++ b) =
          (x +:+ "," +:+ join_ids a) +:+ join_ids b).
  by rewrite IH, !string_app_assoc.
Qed.

Lemma devNames_lookup (cs : list ContainerAllocateRequest) (d : string)
    (i : nat) (c : ContainerAllocateRequest) :
  cs !! i = Some c →
  devNames d cs !! i =
    Some (d +:+ join_ids (concat (DevicesIDs <$> take (S i) cs))).
Proof.
  revert d i. induction cs as [|c0 cs IH]; intros d i Hi; [done|].
  destruct i as [|i]; simpl.
  - rewrite ?take_0. simpl. by rewrite app_nil_r.
  - simpl in Hi. rewrite (IH _ _ Hi).
    by rewrite join_ids_app, string_app_assoc.
Qed.

(** X20.  In a request that succeeds, the value the group at position
    [i] is given under "NF-DEV" is made of the identities of all the
    groups up to and including it, in request order, each followed by a
    comma: [devName] is not reset between groups. *)
Theorem Allocate_values (rqt : AllocateRequest) (st : State) (i : nat)
    (c : ContainerAllocateRequest) :
  Forall (healthy_in (devices (nf st))) (all_ids rqt) →
  ContainerRequests rqt !! i = Some c →
  ∃ resp,
    (Allocate rqt st).1 = Done (inr resp) ∧
    ContainerResponses resp !! i =
      Some {| Envs := {[ "NF-DEV" :=
                join_ids (concat (DevicesIDs <$>
                            take (S i) (ContainerRequests rqt))) ]} |}.
Proof.
  intros Hall Hi. unfold Allocate.
  rewrite (allocateContainers_healthy _ _ _ _ Hall). simpl.
  eexists. split; [done|]. simpl.
  by rewrite list_lookup_fmap, (devNames_lookup _ _ _ _ Hi).
Qed.

Lemma Allocate_values_witness :
  ∃ resp,
    (Allocate (request [["A"]; []; ["A"; "A"]]) state_AB).1 = Done (inr resp) ∧
    ContainerResponses resp !! 2 =
      Some {| Envs := {[ "NF-DEV" := "A,A,A," ]} |}.
Proof.
  apply (Allocate_values (request [["A"]; []; ["A"; "A"]]) state_AB 2
           (mkContainerAllocateRequest ["A"; "A"])).
  - repeat constructor.
  - reflexivity.
Defined.

Lemma allocateDevices_logs (ids : list string) (devName : string) (st : State) :
  ∃ new, trace (allocateDevices ids devName st).2 = trace st ++ new ∧
         Forall is_log new.
Proof.
  revert devName st. induction ids as [|id ids IH]; intros devName st.
  - exists []. by rewrite app_nil_r.
  - simpl. msimpl.
    destruct (devices (nf st) !! id) as [dev|];
      [destruct (decide (Health dev ≠ Healthy))|].
    + exists [log_id id]. split; [done|]. by repeat constructor.
    + destruct (IH ((devName +:+ id) +:+ ",")
                  {| nf := nf st; trace := trace st ++ [log_id id] |})
        as (new & Ht & Hlog).
      unfold log_id in Ht.
      exists (log_id id :: new). split.
      * rewrite Ht. simpl. by rewrite <- app_assoc.
      * by constructor.
    + exists [log_id id]. split; [done|]. by repeat constructor.
Qed.

Lemma allocateContainers_logs (cs : list ContainerAllocateRequest)
    (devName : string) (resp : AllocateResponse) (st : State) :
  ∃ new, trace (allocateContainers cs devName resp st).2 = trace st ++ new ∧
         Forall is_log new.
Proof.
  revert devName resp st. induction cs as [|c cs IH]; intros devName resp st.
  - exists []. by rewrite app_nil_r.
  - simpl. unfold mbind at 1, M_bind at 1.
    destruct (allocateDevices_logs (DevicesIDs c) devName st)
      as (new1 & Ht1 & Hlog1).
    destruct (allocateDevices (DevicesIDs c) devName st)
      as [[[e|d]|r] st1]; simpl in Ht1.
    + by exists new1.
    + msimpl.
      match goal with
      | |- context [allocateContainers cs d ?r ?s] =>
          destruct (IH d r s) as (new2 & Ht2 & Hlog2)
      end.
      exists (new1 ++ LogInfo "Device(s) allocated:" "devName" (LStr d) :: new2).
      split.
      * rewrite Ht2. simpl. rewrite Ht1. by rewrite <- !app_assoc.
      * apply Forall_app. split; [done|]. by constructor.
    + by exists new1.
Qed.

(** X21.  [Allocate] is served from the registry alone: all it adds to
    the trace are lines of the log; it makes no dial and no call to the
    vendor or the orchestrator, pushes nothing and stops nothing. *)
Theorem Allocate_only_logs (rqt : AllocateRequest) (st : State) :
  ∃ new, trace (Allocate rqt st).2 = trace st ++ new ∧ Forall is_log new.
Proof. apply allocateContainers_logs. Qed.

(** ** The snapshot in the states of a process *)

(** X22.  In every state a process can reach, the snapshot pushed to the
    orchestrator has one record per identity of the registry: as many
    records as the registry, no identity twice, and each record Healthy
    and filed in the registry under its own identity. *)
Theorem reachable_snapshot (st : State) :
  reachable st →
  length (snapshot (nf st)) = size (devices (nf st)) ∧
  NoDup (ID <$> snapshot (nf st)) ∧
  ∀ d, d ∈ snapshot (nf st) →
       Health d = Healthy ∧ devices (nf st) !! ID d = Some d.
Proof.
  intros [Hwf Hh]%reachable_registry. split_and!.
  - unfold snapshot. rewrite length_fmap. apply length_map_to_list.
  - by apply snapshot_NoDup.
  - intros d [k Hk]%elem_of_snapshot. split; [by apply Hh in Hk|].
    by rewrite (Hwf k d Hk).
Qed.

Lemma reachable_snapshot_witness :
  let st := (GetDevices (env_up [pb.mkDevice "A"; pb.mkDevice "A"]) boot).2 in
  length (snapshot (nf st)) = size (devices (nf st)) ∧
  NoDup (ID <$> snapshot (nf st)) ∧
  ∀ d, d ∈ snapshot (nf st) →
       Health d = Healthy ∧ devices (nf st) !! ID d = Some d.
Proof.
  intros st. apply (reachable_snapshot st). apply reach_GetDevices, reach_boot.
Defined.

(** ** The only way out of the watch loop *)

(** X23.  The watch loop returns only through a push that failed: when
    [ListAndWatch] has returned an error, that error is the one of a
    push, which together with its log line and the stop of the server
    ends the trace of the loop, and the server is stopped. *)
Theorem ListAndWatch_returns_on_failed_push (stream : ListAndWatchServer)
    (fuel : nat) (c : bool) (st : State) (e : error) :
  (ListAndWatch_from stream fuel c st).1 = Done (Returned e) →
  (∃ pre resp,
     trace (ListAndWatch_from stream fuel c st).2 =
       trace st ++ pre ++ [StreamSend resp (Some e); send_failed e; ServerStop]) ∧
  grpcServer (nf (ListAndWatch_from stream fuel c st).2) = Some server_stopped.
Proof.
  revert c st. induction fuel as [|fuel IH]; intros c st Hret;
    [by simpl in Hret|].
  (* the iterations after a first one that did not return *)
  assert (∀ c' st' (new0 : list event),
    trace st' = trace st ++ new0 →
    (ListAndWatch_from stream fuel c' st').1 = Done (Returned e) →
    (∃ pre resp,
       trace (ListAndWatch_from stream fuel c' st').2 =
         trace st ++ pre ++ [StreamSend resp (Some e); send_failed e; ServerStop]) ∧
    grpcServer (nf (ListAndWatch_from stream fuel c' st').2) =
      Some server_stopped) as Hrest.
  { intros c' st' new0 Ht' Hret'.
    destruct (IH c' st' Hret') as [(pre & resp & Ht) Hs]. split; [|done].
    exists (new0 ++ pre), resp. rewrite Ht, Ht'. by rewrite <- !app_assoc. }
  destruct c.
  - destruct (Send stream (trace st ++ [push_log st]) (push_of st))
      as [e'|] eqn:Hs.
    + destruct (grpcServer (nf st)) as [s|] eqn:Hg.
      * rewrite (ListAndWatch_from_failed stream fuel st e' s Hs Hg) in Hret |- *.
        simpl in Hret. assert (e' = e) as -> by congruence. simpl.
        split; [|done]. by exists [push_log st], (push_of st).
      * rewrite ListAndWatch_from_step in Hret.
        destruct (sendDevices_no_server stream st e' Hs Hg) as [r Hr].
        destruct (sendDevices stream st) as [r0 st1]. simpl in Hr. subst r0.
        discriminate Hret.
    + rewrite (ListAndWatch_from_pushed stream fuel st Hs) in Hret |- *.
      by apply (Hrest _ _ [push_log st; StreamSend (push_of st) None; Sleep 5]).
  - rewrite (ListAndWatch_from_idle stream fuel st) in Hret |- *.
    by apply (Hrest _ _ [Sleep 5]).
Qed.

Lemma ListAndWatch_returns_on_failed_push_witness :
  (∃ pre resp,
     trace (ListAndWatch_from stream_broken 3 true state_served).2 =
       trace state_served ++ pre ++
         [StreamSend resp (Some {| Error := "transport is closing";
                                   IsNotExist := false |});
          send_failed {| Error := "transport is closing"; IsNotExist := false |};
          ServerStop]) ∧
  grpcServer (nf (ListAndWatch_from stream_broken 3 true state_served).2) =
    Some server_stopped.
Proof.
  apply (ListAndWatch_returns_on_failed_push stream_broken 3 true state_served).
  reflexivity.
Defined.

(** ** The self-test dial and cleanup *)

(** X24.  [connectWithRetry] makes exactly one dial, blocking, under a
    deadline of five seconds, to the endpoint it is given; what it
    returns is the outcome of that dial, the error unwrapped; a failure
    is logged, and the plugin state is never touched. *)
Theorem connectWithRetry_passes_through (E : Env) (endpoint : string)
    (st : State) :
  let rq := retryDial endpoint in
  dial_target rq = endpoint ∧ WithBlock rq = true ∧
  dial_timeout rq = Some 5%Z ∧
  (connectWithRetry E endpoint st).1 = Done (grpc_DialContext E rq) ∧
  nf (connectWithRetry E endpoint st).2 = nf st ∧
  ∃ rest,
    trace (connectWithRetry E endpoint st).2 =
      trace st ++ Dial rq (grpc_DialContext E rq) :: rest ∧
    (∀ rq' r, Dial rq' r ∉ rest) ∧
    (rest = [] ↔ ∃ c, grpc_DialContext E rq = inr c).
Proof.
  intros rq. rewrite connectWithRetry_run. simpl. fold rq.
  split_and!; [done..|].
  destruct (grpc_DialContext E rq) as [err|c].
  - eexists. split; [done|]. split.
    + intros rq' r Hin.
      apply elem_of_cons in Hin as [Hin|Hin]; [discriminate Hin|].
      by apply elem_of_nil in Hin.
    + split; [done|]. by intros [c ?].
  - exists []. split; [done|]. split.
    + intros rq' r Hin. by apply elem_of_nil in Hin.
    + split; [by eauto|done].
Qed.

(** X25.  When the socket file cannot be removed for another reason than
    its absence, [Start] fails with that error under "failed to
    cleanup", and the removal attempt is all it has done: nothing is
    dialled, bound or stored. *)
Theorem Start_cleanup_failed (E : Env) (st : State) (e : error) :
  os_Remove E (socketPath E (nf st)) = Some e →
  IsNotExist e = false →
  Start E st =
    (Done (Some (Errorf ("failed to cleanup: " +:+ Error e))),
     {| nf := nf st;
        trace := trace st ++ [OsRemove (socketPath E (nf st)) (Some e)] |}).
Proof.
  intros Hr Hne. rewrite Start_steps, cleanup_run. by rewrite Hr, Hne.
Qed.

Lemma Start_cleanup_failed_witness :
  Start env_locked boot =
    (Done (Some (Errorf "failed to cleanup: permission denied")),
     {| nf := NewGrpcPlugin;
        trace := [OsRemove "/var/lib/kubelet/device-plugins/sriovNet.sock"
                    (Some denied)] |}).
Proof.
  apply (Start_cleanup_failed env_locked boot denied); reflexivity.
Defined.
